(** * A shallow embedding of [model.py]: the encoder-decoder transformer.

    The Python module builds a graph of [nn.Module] objects and calls into
    the tensor library for every arithmetic step.  The embedding keeps that
    split:

    - [Tensor] is the interface of the tensor operations the module calls;
      every operation is partial ([option]), a [None] being the exception
      the library raises;
    - the module records ([MHA], [EncoderBlock], [Transformer], ...) keep the
      attributes of the Python objects, learned parameters as tensors;
    - a forward call is a computation in the monad [M]: it threads the
      random-number state the dropout layers draw from and may fail;
      a forward call that assigns an attribute ([self.attention_scores])
      returns the updated module record;
    - [Shape] interprets the interface on tensor shapes (the shape algebra of
      the library) and [build_transformer] is the construction, at that level;
    - the numerical parts ([LayerNormalization], the log-softmax head, the
      positional table) are also given over the reals, position by position. *)

From Stdlib Require Import ZArith List Bool QArith Reals Lra Lia.
From Stdlib Require Import FunctionalExtensionality Psatz.
Import ListNotations.
Open Scope Z_scope.

(** ** The error and random-state monad of a forward call *)
Module Monad.

Definition M (Rng A : Type) : Type := Rng -> option (A * Rng).

Definition ret {Rng A} (a : A) : M Rng A := fun g => Some (a, g).

Definition bind {Rng A B} (m : M Rng A) (k : A -> M Rng B) : M Rng B :=
  fun g => match m g with
           | Some (a, g') => k a g'
           | None => None
           end.

(** An operation of the tensor library: it fails or not, and draws nothing. *)
Definition lift {Rng A} (o : option A) : M Rng A :=
  fun g => match o with Some a => Some (a, g) | None => None end.

Definition obind {A B} (o : option A) (k : A -> option B) : option B :=
  match o with Some a => k a | None => None end.

End Monad.
Import Monad.

Declare Scope fwd_scope.
Delimit Scope fwd_scope with fwd.
Notation "x <- m ;; k" := (bind m (fun x => k))
  (at level 61, m at next level, right associativity) : fwd_scope.
Notation "' p <- m ;; k" := (bind m (fun x => match x with p => k end))
  (at level 61, p pattern, m at next level, right associativity) : fwd_scope.
Notation "x <-? o ;; k" := (obind o (fun x => k))
  (at level 61, o at next level, right associativity) : fwd_scope.
Open Scope fwd_scope.

(** ** The tensor library, as the module uses it *)

(** [T]: tensors, [F]: Python floats, [Rng]: the state of the random
    generator.  Names follow the library calls of [model.py]. *)
Class Tensor (T F Rng : Type) := {
  shape : T -> list Z;                       (* x.shape *)
  add : T -> T -> option T;                  (* x + y, broadcasting *)
  sub : T -> T -> option T;                  (* x - y *)
  mul : T -> T -> option T;                  (* x * y *)
  div : T -> T -> option T;                  (* x / y *)
  add_f : T -> F -> option T;                (* x + float *)
  mul_f : T -> F -> option T;                (* x * float *)
  div_f : T -> F -> option T;                (* x / float *)
  f_sqrt : Z -> option F;                    (* math.sqrt(n) *)
  mean_last : T -> option T;                 (* x.mean(dim=-1, keepdim=True) *)
  std_last : T -> option T;                  (* x.std(dim=-1, keepdim=True) *)
  relu : T -> option T;                      (* torch.relu *)
  softmax_last : T -> option T;              (* x.softmax(dim=-1) *)
  log_softmax_last : T -> option T;          (* torch.log_softmax(x, dim=-1) *)
  contiguous : T -> option T;                (* x.contiguous() *)
  matmul : T -> T -> option T;               (* x @ y *)
  transpose : Z -> Z -> T -> option T;       (* x.transpose(i, j) *)
  view : list Z -> T -> option T;            (* x.view( *dims ) *)
  linear : T -> T -> T -> option T;          (* F.linear(x, weight, bias) *)
  embedding : T -> T -> option T;            (* F.embedding(idx, weight): idx first *)
  slice_seq : Z -> T -> option T;            (* pe[:, :n, :] *)
  masked_fill_eq0 : T -> T -> option T;      (* s.masked_fill_(mask == 0, -1e9): mask first *)
  dropout_train : F -> T -> Rng -> option (T * Rng)  (* F.dropout(x, p, training=True) *)
}.

Section Graph.
Context {T F Rng : Type} `{Tensor T F Rng}.

(** [x.shape[i]], Python indexing: negative indices count from the end,
    an index out of range raises [IndexError]. *)
Definition dim (i : Z) (x : T) : option Z :=
  let s := shape x in
  let n := Z.of_nat (length s) in
  let j := if i <? 0 then i + n else i in
  if (0 <=? j) && (j <? n) then nth_error s (Z.to_nat j) else None.

(** ** The modules and their attributes *)

Record Linear := mkLinear { weight : T; lbias : T }.

Record LayerNormalization := mkLayerNorm { ln_eps : F; alpha : T; ln_bias : T }.

Record FeedForwardBlock := mkFFB { linear_1 : Linear; ff_dropout : F; linear_2 : Linear }.

(** [attention_scores] is [None] while the attribute does not exist yet. *)
Record MultiHeadAttentionBlock := mkMHA {
  mha_d_model : Z; mha_h : Z; mha_d_k : Z;
  w_q : Linear; w_k : Linear; w_v : Linear; w_o : Linear;
  mha_dropout : F;
  attention_scores : option T }.

Record ResidualConnection := mkResidual { res_dropout : F; res_norm : LayerNormalization }.

Record EncoderBlock := mkEncoderBlock {
  eb_self_attention_block : MultiHeadAttentionBlock;
  eb_feed_forward_block : FeedForwardBlock;
  eb_residual_connections : list ResidualConnection }.

Record Encoder := mkEncoder { enc_layers : list EncoderBlock; enc_norm : LayerNormalization }.

Record DecoderBlock := mkDecoderBlock {
  db_self_attention_block : MultiHeadAttentionBlock;
  db_cross_attention_block : MultiHeadAttentionBlock;
  db_feed_forward_block : FeedForwardBlock;
  db_residual_connection : list ResidualConnection }.

Record Decoder := mkDecoder { dec_layers : list DecoderBlock; dec_norm : LayerNormalization }.

Record InputEmbedding := mkInputEmbedding { ie_d_model : Z; ie_vocab_size : Z; ie_embedding : T }.

Record PositionalEncoding := mkPositionalEncoding {
  pe_d_model : Z; pe_seq_len : Z; pe_dropout : F; pe : T }.

Record ProjectionLayer := mkProjection { proj : Linear }.

Record Transformer := mkTransformer {
  encoder : Encoder; decoder : Decoder;
  src_embed : InputEmbedding; tgt_embed : InputEmbedding;
  src_pos : PositionalEncoding; tgt_pos : PositionalEncoding;
  projection_layer : ProjectionLayer }.

(** ** Forward computations.  [training] is the mode set by
    [model.train()] / [model.eval()]. *)

(** [nn.Dropout]: the identity in evaluation mode, a draw otherwise. *)
Definition dropout (p : F) (training : bool) (x : T) : M Rng T :=
  if training then dropout_train p x else ret x.

Definition linear_forward (l : Linear) (x : T) : option T :=
  linear x (weight l) (lbias l).

(** [InputEmbedding.forward]: [self.embedding(x) * math.sqrt(self.d_model)] *)
Definition input_embedding_forward (ie : InputEmbedding) (x : T) : option T :=
  e <-? embedding x (ie_embedding ie) ;;
  r <-? f_sqrt (ie_d_model ie) ;;
  mul_f e r.

(** [PositionalEncoding.forward] *)
Definition positional_encoding_forward (training : bool) (pos : PositionalEncoding) (x : T)
  : M Rng T :=
  x' <- lift (n <-? dim 1 x ;; s <-? slice_seq n (pe pos) ;; add x s) ;;
  dropout (pe_dropout pos) training x'.

(** [LayerNormalization.forward]:
    [self.alpha * (x - mean) / (std + self.eps) + self.bias] *)
Definition layer_norm_forward (ln : LayerNormalization) (x : T) : option T :=
  mean <-? mean_last x ;;
  std <-? std_last x ;;
  c <-? sub x mean ;;
  a <-? mul (alpha ln) c ;;
  e <-? add_f std (ln_eps ln) ;;
  q <-? div a e ;;
  add q (ln_bias ln).

(** [FeedForwardBlock.forward] *)
Definition feed_forward_forward (training : bool) (ff : FeedForwardBlock) (x : T) : M Rng T :=
  a <- lift (linear_forward (linear_1 ff) x) ;;
  r <- lift (relu a) ;;
  d <- dropout (ff_dropout ff) training r ;;
  lift (linear_forward (linear_2 ff) d).

(** [MultiHeadAttentionBlock.attention]; [drop] is the [dropout] argument
    ([None] for Python's [None]).  Line 131 evaluates
    [attention_scores - dropout(attention_scores)] and discards it. *)
Definition attention (query key value : T) (mask : option T) (drop : option (F * bool))
  : M Rng (T * T) :=
  d_k <- lift (dim (-1) query) ;;
  kt <- lift (transpose (-2) (-1) key) ;;
  s0 <- lift (matmul query kt) ;;
  r <- lift (f_sqrt d_k) ;;
  s1 <- lift (div_f s0 r) ;;
  s2 <- lift (match mask with Some m => masked_fill_eq0 m s1 | None => Some s1 end) ;;
  s3 <- lift (softmax_last s2) ;;
  _ <- (match drop with
        | Some (p, training) => dd <- dropout p training s3 ;; lift (sub s3 dd)
        | None => ret s3
        end) ;;
  o <- lift (matmul s3 value) ;;
  ret (o, s3).

(** [x.contiguous().view(x.shape[0], -1, h, d_k).transpose(1, 2)] *)
Definition split_heads (h d_k : Z) (x : T) : option T :=
  c <-? contiguous x ;;
  b <-? dim 0 x ;;
  v <-? view [b; -1; h; d_k] c ;;
  transpose 1 2 v.

(** [x.transpose(1, 2).contiguous().view(x.shape[0], -1, h * d_k)] *)
Definition merge_heads (h d_k : Z) (x : T) : option T :=
  t <-? transpose 1 2 x ;;
  c <-? contiguous t ;;
  b <-? dim 0 x ;;
  view [b; -1; h * d_k] c.

(** [MultiHeadAttentionBlock.forward]: returns the output and the block,
    whose [attention_scores] attribute it assigns. *)
Definition mha_forward (training : bool) (m : MultiHeadAttentionBlock) (q k v : T)
  (mask : option T) : M Rng (T * MultiHeadAttentionBlock) :=
  query <- lift (linear_forward (w_q m) q) ;;
  key <- lift (linear_forward (w_k m) k) ;;
  value <- lift (linear_forward (w_v m) v) ;;
  query <- lift (split_heads (mha_h m) (mha_d_k m) query) ;;
  key <- lift (split_heads (mha_h m) (mha_d_k m) key) ;;
  value <- lift (split_heads (mha_h m) (mha_d_k m) value) ;;
  '(x, scores) <- attention query key value mask (Some (mha_dropout m, training)) ;;
  let m' := mkMHA (mha_d_model m) (mha_h m) (mha_d_k m) (w_q m) (w_k m) (w_v m) (w_o m)
                  (mha_dropout m) (Some scores) in
  x <- lift (merge_heads (mha_h m) (mha_d_k m) x) ;;
  o <- lift (linear_forward (w_o m) x) ;;
  ret (o, m').

(** [ResidualConnection.forward(x, sublayer)]: the sublayer is a closure
    over a module of state [S] (the attention block it may update). *)
Definition residual_forward {S : Type} (training : bool) (rc : ResidualConnection) (x : T)
  (sublayer : T -> S -> M Rng (T * S)) (s : S) : M Rng (T * S) :=
  n <- lift (layer_norm_forward (res_norm rc) x) ;;
  '(y, s') <- sublayer n s ;;
  d <- dropout (res_dropout rc) training y ;;
  r <- lift (add x d) ;;
  ret (r, s').

(** A module without attributes written in a forward call. *)
Definition stateless (f : T -> M Rng T) : T -> unit -> M Rng (T * unit) :=
  fun x u => y <- f x ;; ret (y, u).

Definition encoder_block_forward (training : bool) (eb : EncoderBlock) (x : T)
  (src_mask : option T) : M Rng (T * EncoderBlock) :=
  rc0 <- lift (nth_error (eb_residual_connections eb) 0) ;;
  '(x, sa) <- residual_forward training rc0 x
                (fun x sa => mha_forward training sa x x x src_mask)
                (eb_self_attention_block eb) ;;
  rc1 <- lift (nth_error (eb_residual_connections eb) 1) ;;
  '(x, _) <- residual_forward training rc1 x
               (stateless (feed_forward_forward training (eb_feed_forward_block eb))) tt ;;
  ret (x, mkEncoderBlock sa (eb_feed_forward_block eb) (eb_residual_connections eb)).

Fixpoint encoder_layers_forward (training : bool) (layers : list EncoderBlock) (x : T)
  (mask : option T) : M Rng (T * list EncoderBlock) :=
  match layers with
  | [] => ret (x, [])
  | l :: ls =>
      '(x, l') <- encoder_block_forward training l x mask ;;
      '(x, ls') <- encoder_layers_forward training ls x mask ;;
      ret (x, l' :: ls')
  end.

Definition encoder_forward (training : bool) (e : Encoder) (x : T) (mask : option T)
  : M Rng (T * Encoder) :=
  '(x, ls) <- encoder_layers_forward training (enc_layers e) x mask ;;
  y <- lift (layer_norm_forward (enc_norm e) x) ;;
  ret (y, mkEncoder ls (enc_norm e)).

Definition decoder_block_forward (training : bool) (db : DecoderBlock) (x encoder_output : T)
  (src_mask tgt_mask : option T) : M Rng (T * DecoderBlock) :=
  rc0 <- lift (nth_error (db_residual_connection db) 0) ;;
  '(x, sa) <- residual_forward training rc0 x
                (fun x sa => mha_forward training sa x x x tgt_mask)
                (db_self_attention_block db) ;;
  rc1 <- lift (nth_error (db_residual_connection db) 1) ;;
  '(x, ca) <- residual_forward training rc1 x
                (fun x ca => mha_forward training ca x encoder_output encoder_output src_mask)
                (db_cross_attention_block db) ;;
  rc2 <- lift (nth_error (db_residual_connection db) 2) ;;
  '(x, _) <- residual_forward training rc2 x
               (stateless (feed_forward_forward training (db_feed_forward_block db))) tt ;;
  ret (x, mkDecoderBlock sa ca (db_feed_forward_block db) (db_residual_connection db)).

Fixpoint decoder_layers_forward (training : bool) (layers : list DecoderBlock)
  (x encoder_output : T) (src_mask tgt_mask : option T) : M Rng (T * list DecoderBlock) :=
  match layers with
  | [] => ret (x, [])
  | l :: ls =>
      '(x, l') <- decoder_block_forward training l x encoder_output src_mask tgt_mask ;;
      '(x, ls') <- decoder_layers_forward training ls x encoder_output src_mask tgt_mask ;;
      ret (x, l' :: ls')
  end.

Definition decoder_forward (training : bool) (d : Decoder) (x encoder_output : T)
  (src_mask tgt_mask : option T) : M Rng (T * Decoder) :=
  '(x, ls) <- decoder_layers_forward training (dec_layers d) x encoder_output src_mask tgt_mask ;;
  y <- lift (layer_norm_forward (dec_norm d) x) ;;
  ret (y, mkDecoder ls (dec_norm d)).

(** [ProjectionLayer.forward] *)
Definition projection_forward (p : ProjectionLayer) (x : T) : option T :=
  y <-? linear_forward (proj p) x ;;
  log_softmax_last y.

(** [Transformer.encode]: the output and the model after the call. *)
Definition encode (training : bool) (m : Transformer) (src : T) (src_mask : option T)
  : M Rng (T * Transformer) :=
  x <- lift (input_embedding_forward (src_embed m) src) ;;
  x <- positional_encoding_forward training (src_pos m) x ;;
  '(y, e) <- encoder_forward training (encoder m) x src_mask ;;
  ret (y, mkTransformer e (decoder m) (src_embed m) (tgt_embed m) (src_pos m) (tgt_pos m)
                        (projection_layer m)).

(** [Transformer.decode] *)
Definition decode (training : bool) (m : Transformer) (encoder_output : T)
  (src_mask : option T) (tgt : T) (tgt_mask : option T) : M Rng (T * Transformer) :=
  x <- lift (input_embedding_forward (tgt_embed m) tgt) ;;
  x <- positional_encoding_forward training (tgt_pos m) x ;;
  '(y, d) <- decoder_forward training (decoder m) x encoder_output src_mask tgt_mask ;;
  ret (y, mkTransformer (encoder m) d (src_embed m) (tgt_embed m) (src_pos m) (tgt_pos m)
                        (projection_layer m)).

(** [Transformer.project]: it assigns no attribute. *)
Definition project (m : Transformer) (x : T) : option T :=
  projection_forward (projection_layer m) x.

End Graph.

(** ** The shape interpretation of the tensor library

    A tensor is its shape; an integer tensor of token indices also carries its
    values, which [nn.Embedding] checks against the vocabulary size.  The
    interpretation keeps no floating-point value: a Python float is kept as a
    rational that the shape operations never read. *)
Module Shape.

Record Sh := mkSh { dims : list Z; ivals : list Z }.

Definition mk (s : list Z) : Sh := mkSh s [].

Definition prod (s : list Z) : Z := fold_right Z.mul 1 s.

Fixpoint zlist_eqb (a b : list Z) : bool :=
  match a, b with
  | [], [] => true
  | x :: a', y :: b' => (x =? y) && zlist_eqb a' b'
  | _, _ => false
  end.

(** Broadcasting of two sizes: equal, or one of them is 1. *)
Definition bdim (a b : Z) : option Z :=
  if a =? b then Some a else if a =? 1 then Some b else if b =? 1 then Some a else None.

(** Broadcasting of two shapes given from their last dimension. *)
Fixpoint bcast_rev (r1 r2 : list Z) : option (list Z) :=
  match r1, r2 with
  | [], r => Some r
  | r, [] => Some r
  | a :: r1', b :: r2' =>
      d <-? bdim a b ;;
      rest <-? bcast_rev r1' r2' ;;
      Some (d :: rest)
  end.

Definition broadcast (s1 s2 : list Z) : option (list Z) :=
  option_map (@rev Z) (bcast_rev (rev s1) (rev s2)).

(** [x.view(spec)] on a tensor of [numel] elements: at most one [-1], no
    other negative size, and the inferred size must be determined. *)
Definition view_shape (spec : list Z) (numel : Z) : option (list Z) :=
  if existsb (fun d => d <? -1) spec then None else
  match filter (Z.eqb (-1)) spec with
  | [] => if prod spec =? numel then Some spec else None
  | [_] =>
      let p := prod (filter (fun d => negb (d =? -1)) spec) in
      if (0 <? p) && (numel mod p =? 0)
      then Some (map (fun d => if d =? -1 then numel / p else d) spec)
      else None
  | _ => None
  end.

(** A dimension index, Python style, checked against the rank. *)
Definition norm_dim (i : Z) (n : nat) : option nat :=
  let j := if i <? 0 then i + Z.of_nat n else i in
  if (0 <=? j) && (j <? Z.of_nat n) then Some (Z.to_nat j) else None.

Definition list_swap (s : list Z) (a b : nat) : list Z :=
  map (fun k => if Nat.eqb k a then nth b s 0 else if Nat.eqb k b then nth a s 0 else nth k s 0)
      (seq 0 (length s)).

Definition transpose_shape (i j : Z) (s : list Z) : option (list Z) :=
  a <-? norm_dim i (length s) ;;
  b <-? norm_dim j (length s) ;;
  Some (list_swap s a b).

(** [torch.matmul]: vector-vector, matrix-vector, vector-matrix and the
    batched matrix product, whose batch dimensions broadcast. *)
Definition matmul_shape (s1 s2 : list Z) : option (list Z) :=
  match rev s1, rev s2 with
  | [], _ | _, [] => None
  | [m1], [m2] => if m1 =? m2 then Some [] else None
  | m1 :: n :: b1, [m2] => if m1 =? m2 then Some (rev b1 ++ [n]) else None
  | [m1], p :: m2 :: b2 => if m1 =? m2 then Some (rev b2 ++ [p]) else None
  | m1 :: n :: b1, p :: m2 :: b2 =>
      if m1 =? m2 then (b <-? bcast_rev b1 b2 ;; Some (rev b ++ [n; p])) else None
  end.

(** [F.linear(x, weight, bias)] with [weight] of shape [(out, in)]. *)
Definition linear_shape (x w b : list Z) : option (list Z) :=
  match w, b, rev x with
  | [o; i], [o'], last :: r => if (o =? o') && (last =? i) then Some (rev r ++ [o]) else None
  | _, _, _ => None
  end.

(** [nn.Embedding] of [n] rows: every index in [0, n). *)
Definition embedding_shape (idx : Sh) (w : list Z) : option (list Z) :=
  match w with
  | [n; d] => if forallb (fun t => (0 <=? t) && (t <? n)) (ivals idx)
              then Some (dims idx ++ [d]) else None
  | _ => None
  end.

(** The stop of a Python slice [:n] on a dimension of size [l]. *)
Definition pystop (n l : Z) : Z := if n <? 0 then Z.max 0 (l + n) else Z.min n l.

Definition slice_seq_shape (n : Z) (s : list Z) : option (list Z) :=
  match s with
  | a :: l :: d :: rest => Some (a :: pystop n l :: d :: rest)
  | _ => None
  end.

(** A reduction over the last dimension with [keepdim=True]. *)
Definition keepdim_last (s : list Z) : list Z :=
  match rev s with [] => [] | _ :: r => rev r ++ [1] end.

(** In-place [masked_fill_]: the mask must broadcast to the tensor's own shape. *)
Definition masked_fill_shape (mask s : list Z) : option (list Z) :=
  r <-? broadcast mask s ;;
  if zlist_eqb r s then Some s else None.

Definition res (o : option (list Z)) : option Sh := option_map mk o.

#[global] Instance ShapeTensor : Tensor Sh Q unit := {
  shape := dims;
  add x y := res (broadcast (dims x) (dims y));
  sub x y := res (broadcast (dims x) (dims y));
  mul x y := res (broadcast (dims x) (dims y));
  div x y := res (broadcast (dims x) (dims y));
  add_f x _ := Some (mk (dims x));
  mul_f x _ := Some (mk (dims x));
  div_f x _ := Some (mk (dims x));
  f_sqrt n := if n <? 0 then None else Some 0%Q;   (* math domain error *)
  mean_last x := Some (mk (keepdim_last (dims x)));
  std_last x := Some (mk (keepdim_last (dims x)));
  relu x := Some (mk (dims x));
  softmax_last x := Some (mk (dims x));
  log_softmax_last x := Some (mk (dims x));
  contiguous x := Some (mk (dims x));
  matmul x y := res (matmul_shape (dims x) (dims y));
  transpose i j x := res (transpose_shape i j (dims x));
  view spec x := res (view_shape spec (prod (dims x)));
  linear x w b := res (linear_shape (dims x) (dims w) (dims b));
  embedding idx w := res (embedding_shape idx (dims w));
  slice_seq n x := res (slice_seq_shape n (dims x));
  masked_fill_eq0 m x := res (masked_fill_shape (dims m) (dims x));
  dropout_train _ x g := Some (mk (dims x), g)
}.

End Shape.

(** The module types take the tensor (and float) types explicitly. *)
Arguments Linear T : clear implicits.
Arguments LayerNormalization T F : clear implicits.
Arguments FeedForwardBlock T F : clear implicits.
Arguments MultiHeadAttentionBlock T F : clear implicits.
Arguments ResidualConnection T F : clear implicits.
Arguments EncoderBlock T F : clear implicits.
Arguments Encoder T F : clear implicits.
Arguments DecoderBlock T F : clear implicits.
Arguments Decoder T F : clear implicits.
Arguments InputEmbedding T : clear implicits.
Arguments PositionalEncoding T F : clear implicits.
Arguments ProjectionLayer T : clear implicits.
Arguments Transformer T F : clear implicits.

(** ** Construction: the [__init__] methods and [build_transformer]

    At the shape level: a parameter is created with its shape, and the
    construction fails where Python or the library raises. *)
Module Construction.
Import Shape.

(** [nn.Linear(in, out)]: [torch.empty] refuses a negative size. *)
Definition linear_new (i o : Z) : option (Linear Sh) :=
  if (i <? 0) || (o <? 0) then None else Some (mkLinear (mk [o; i]) (mk [o])).

(** [nn.Dropout(p)] raises [ValueError] unless [0 <= p <= 1]. *)
Definition dropout_new (p : Q) : option Q :=
  if Qle_bool 0 p && Qle_bool p 1 then Some p else None.

(** [LayerNormalization()]: [eps = 10**-6], [alpha] and [bias] of shape [(1,)]. *)
Definition layer_norm_new : LayerNormalization Sh Q :=
  mkLayerNorm (1 # 1000000) (mk [1]) (mk [1]).

(** [InputEmbedding(d_model, vocab_size)] *)
Definition input_embedding_new (d_model vocab_size : Z) : option (InputEmbedding Sh) :=
  if (vocab_size <? 0) || (d_model <? 0) then None
  else Some (mkInputEmbedding d_model vocab_size (mk [vocab_size; d_model])).

(** [PositionalEncoding(d_model, seq_len, dropout)], lines 34-62:
    [torch.zeros(seq_len, d_model)] refuses negative sizes,
    [-math.log(10000.0) / d_model] divides by [d_model], [div_term] has
    [ceil(d_model/2)] entries, assigned to the [ceil(d_model/2)] even columns
    ([pe[:,0::2]]) and broadcast to the [floor(d_model/2)] odd columns
    ([pe[:,1::2]]): equal sizes, or a single entry. *)
Definition pe_columns_ok (d_model : Z) : bool :=
  let n_div := (d_model + 1) / 2 in
  let n_even := (d_model + 1) / 2 in
  let n_odd := d_model / 2 in
  ((n_div =? n_even) || (n_div =? 1)) && ((n_div =? n_odd) || (n_div =? 1)).

Definition positional_encoding_new (d_model seq_len : Z) (dropout : Q)
  : option (PositionalEncoding Sh Q) :=
  p <-? dropout_new dropout ;;
  if (seq_len <? 0) || (d_model <? 0) then None
  else if d_model =? 0 then None
  else if pe_columns_ok d_model
  then Some (mkPositionalEncoding d_model seq_len p (mk [1; seq_len; d_model]))
  else None.

(** [MultiHeadAttentionBlock(d_model, h, dropout)]: [d_model % h] raises
    [ZeroDivisionError] for [h = 0]; then the assertion of line 111. *)
Definition mha_new (d_model h : Z) (dropout : Q) : option (MultiHeadAttentionBlock Sh Q) :=
  if h =? 0 then None
  else if negb (d_model mod h =? 0) then None
  else
    wq <-? linear_new d_model d_model ;;
    wk <-? linear_new d_model d_model ;;
    wv <-? linear_new d_model d_model ;;
    wo <-? linear_new d_model d_model ;;
    p <-? dropout_new dropout ;;
    Some (mkMHA d_model h (d_model / h) wq wk wv wo p None).

Definition feed_forward_new (d_model d_ff : Z) (dropout : Q) : option (FeedForwardBlock Sh Q) :=
  l1 <-? linear_new d_model d_ff ;;
  p <-? dropout_new dropout ;;
  l2 <-? linear_new d_ff d_model ;;
  Some (mkFFB l1 p l2).

Definition residual_new (dropout : Q) : option (ResidualConnection Sh Q) :=
  p <-? dropout_new dropout ;;
  Some (mkResidual p layer_norm_new).

Fixpoint residuals_new (n : nat) (dropout : Q) : option (list (ResidualConnection Sh Q)) :=
  match n with
  | O => Some []
  | S n' => r <-? residual_new dropout ;; rs <-? residuals_new n' dropout ;; Some (r :: rs)
  end.

(** The loop [for _ in range(N)] of the encoder blocks. *)
Fixpoint encoder_blocks_new (n : nat) (d_model h d_ff : Z) (dropout : Q)
  : option (list (EncoderBlock Sh Q)) :=
  match n with
  | O => Some []
  | S n' =>
      sa <-? mha_new d_model h dropout ;;
      ff <-? feed_forward_new d_model d_ff dropout ;;
      rs <-? residuals_new 2 dropout ;;
      bs <-? encoder_blocks_new n' d_model h d_ff dropout ;;
      Some (mkEncoderBlock sa ff rs :: bs)
  end.

Fixpoint decoder_blocks_new (n : nat) (d_model h d_ff : Z) (dropout : Q)
  : option (list (DecoderBlock Sh Q)) :=
  match n with
  | O => Some []
  | S n' =>
      sa <-? mha_new d_model h dropout ;;
      ca <-? mha_new d_model h dropout ;;
      ff <-? feed_forward_new d_model d_ff dropout ;;
      rs <-? residuals_new 3 dropout ;;
      bs <-? decoder_blocks_new n' d_model h d_ff dropout ;;
      Some (mkDecoderBlock sa ca ff rs :: bs)
  end.

(** The shapes of [transformer.parameters()] (the [pe] buffers are not
    parameters). *)
Definition linear_params (l : Linear Sh) : list (list Z) := [dims (weight l); dims (lbias l)].
Definition ln_params (ln : LayerNormalization Sh Q) : list (list Z) :=
  [dims (alpha ln); dims (ln_bias ln)].
Definition mha_params (m : MultiHeadAttentionBlock Sh Q) : list (list Z) :=
  linear_params (w_q m) ++ linear_params (w_k m) ++ linear_params (w_v m) ++ linear_params (w_o m).
Definition ffb_params (f : FeedForwardBlock Sh Q) : list (list Z) :=
  linear_params (linear_1 f) ++ linear_params (linear_2 f).
Definition residuals_params (rs : list (ResidualConnection Sh Q)) : list (list Z) :=
  flat_map (fun r => ln_params (res_norm r)) rs.
Definition transformer_params (m : Transformer Sh Q) : list (list Z) :=
  flat_map (fun b => mha_params (eb_self_attention_block b) ++ ffb_params (eb_feed_forward_block b)
                     ++ residuals_params (eb_residual_connections b)) (enc_layers (encoder m))
  ++ ln_params (enc_norm (encoder m))
  ++ flat_map (fun b => mha_params (db_self_attention_block b) ++ mha_params (db_cross_attention_block b)
                     ++ ffb_params (db_feed_forward_block b)
                     ++ residuals_params (db_residual_connection b)) (dec_layers (decoder m))
  ++ ln_params (dec_norm (decoder m))
  ++ [dims (ie_embedding (src_embed m)); dims (ie_embedding (tgt_embed m))]
  ++ linear_params (proj (projection_layer m)).

(** The number of scalars in a list of parameters: [sum(p.numel() for p in ...)]. *)
Definition numel_sum (l : list (list Z)) : Z := fold_right Z.add 0 (map prod l).

(** [nn.init.xavier_uniform(p)] for [p.dim() > 1]: the bound divides by
    [fan_in + fan_out]. *)
Definition xavier_ok (s : list Z) : bool :=
  match s with
  | fan_out :: fan_in :: rest => negb ((fan_in + fan_out) * prod rest =? 0)
  | _ => true
  end.

Definition build_transformer (src_vocab_size tgt_vocab_size src_seq_len tgt_seq_len d_model N h : Z)
  (dropout : Q) (d_ff : Z) : option (Transformer Sh Q) :=
  src_embed <-? input_embedding_new d_model src_vocab_size ;;
  tgt_embed <-? input_embedding_new d_model tgt_vocab_size ;;
  src_pos <-? positional_encoding_new d_model src_seq_len dropout ;;
  tgt_pos <-? positional_encoding_new d_model tgt_seq_len dropout ;;
  encoder_blocks <-? encoder_blocks_new (Z.to_nat N) d_model h d_ff dropout ;;
  decoder_blocks <-? decoder_blocks_new (Z.to_nat N) d_model h d_ff dropout ;;
  projection <-? linear_new d_model tgt_vocab_size ;;
  let m := mkTransformer (mkEncoder encoder_blocks layer_norm_new)
                         (mkDecoder decoder_blocks layer_norm_new)
                         src_embed tgt_embed src_pos tgt_pos (mkProjection projection) in
  if forallb xavier_ok (transformer_params m) then Some m else None.

End Construction.

(** ** The numerical layers over the reals

    One position of the last dimension at a time: a vector is a [list R]. *)
Module Numeric.
Local Open Scope R_scope.

Definition sumR (l : list R) : R := fold_right Rplus 0 l.

(** [x.mean(dim=-1)] *)
Definition mean_vec (x : list R) : R := sumR x / INR (length x).

(** The sum of squared deviations from the mean. *)
Definition sq_dev (x : list R) : R := sumR (map (fun xi => (xi - mean_vec x) ^ 2) x).

(** [x.std(dim=-1)]: the library's default is the unbiased estimate,
    dividing by [N - 1]. *)
Definition std_vec (x : list R) : R := sqrt (sq_dev x / INR (length x - 1)).

(** [LayerNormalization.forward] on one vector of the last dimension, with the
    scalars [alpha] and [bias] (parameters of shape [(1,)]). *)
Definition layer_norm_vec (alpha bias eps : R) (x : list R) : list R :=
  map (fun xi => alpha * (xi - mean_vec x) / (std_vec x + eps) + bias) x.

(** The two variances a reader may mean. *)
Definition var_pop (z : list R) : R := sq_dev z / INR (length z).
Definition var_unbiased (z : list R) : R := sq_dev z / INR (length z - 1).

(** [(out - bias) / alpha], position-wise. *)
Definition unscale (alpha bias : R) (out : list R) : list R :=
  map (fun o => (o - bias) / alpha) out.

(** [nn.Linear(d_model, vocab_size)] on one position: one row of the
    weight per vocabulary entry. *)
Definition dot (w x : list R) : R := sumR (map (fun p => fst p * snd p) (combine w x)).

Definition linear_vec (W : list (list R)) (b x : list R) : list R :=
  map (fun p => dot (fst p) x + snd p) (combine W b).

(** [torch.log_softmax(v, dim=-1)], as its kernel computes it: shifted by
    the maximum, then by the log of the sum of exponentials. *)
Definition max_vec (v : list R) : R := fold_right Rmax (hd 0 v) v.

Definition log_softmax_vec (v : list R) : list R :=
  let m := max_vec v in
  let lse := ln (sumR (map (fun vi => exp (vi - m)) v)) in
  map (fun vi => vi - m - lse) v.

(** [ProjectionLayer.forward] on one position. *)
Definition project_vec (W : list (list R)) (b x : list R) : list R :=
  log_softmax_vec (linear_vec W b x).

(** [MultiHeadAttentionBlock.attention], lines 123-129, for one query row
    of one head: the scores [q . k_j / math.sqrt(d_k)], [d_k] the size of
    the last dimension of the query; [masked_fill_(mask == 0, -1e9)] with the
    row of the mask broadcast to the scores; then [softmax(dim=-1)], as its
    kernel computes it (shifted by the maximum). *)
Definition softmax_vec (v : list R) : list R :=
  let m := max_vec v in
  let s := sumR (map (fun vi => exp (vi - m)) v) in
  map (fun vi => exp (vi - m) / s) v.

Definition masked_fill_row (mrow scores : list R) : list R :=
  map (fun p => if Req_dec_T (snd p) 0 then - 1000000000 else fst p) (combine scores mrow).

Definition attention_row (q : list R) (K : list (list R)) (mrow : option (list R)) : list R :=
  let scores := map (fun k => dot q k / sqrt (INR (length q))) K in
  softmax_vec (match mrow with
               | Some mr => masked_fill_row mr scores
               | None => scores
               end).

(** [PositionalEncoding.__init__], lines 41-57, over the reals. *)

(** [div_term[j] = exp((2 j) * (-math.log(10000.0) / d_model))] *)
Definition div_term (d_model : Z) (j : nat) : R :=
  exp (IZR (2 * Z.of_nat j) * (- ln 10000 / IZR d_model)).

(** [torch.sin(position * div_term)] and [torch.cos(...)] at row [k]. *)
Definition sin_row (d_model : Z) (n_div k : nat) : list R :=
  map (fun j => sin (INR k * div_term d_model j)) (seq 0 n_div).
Definition cos_row (d_model : Z) (n_div k : nat) : list R :=
  map (fun j => cos (INR k * div_term d_model j)) (seq 0 n_div).

(** The number of columns [start::2] selects among [len]. *)
Definition stride_count (len start : nat) : nat :=
  length (filter (fun c => (start <=? c)%nat && Nat.even (c - start)) (seq 0 len)).

(** The assignment [row[start::2] = vals], [vals] broadcast when it has a
    single entry. *)
Definition assign_stride (row : list R) (start : nat) (vals : list R) : list R :=
  map (fun c =>
         if (start <=? c)%nat && Nat.even (c - start) then
           match nth_error vals (if (length vals =? 1)%nat then 0%nat else ((c - start) / 2)%nat) with
           | Some v => v
           | None => nth c row 0
           end
         else nth c row 0)
      (seq 0 (length row)).

(** Broadcasting [n] values to [count] places. *)
Definition bcast_ok (n count : nat) : bool := (n =? count)%nat || (n =? 1)%nat.

Definition pe_row (d_model : Z) (n_div k : nat) : list R :=
  let d := Z.to_nat d_model in
  assign_stride (assign_stride (repeat 0 d) 0 (sin_row d_model n_div k)) 1
                (cos_row d_model n_div k).

(** The buffer [pe] of shape [(1, seq_len, d_model)], or the exception. *)
Definition pe_table (seq_len d_model : Z) : option (list (list (list R))) :=
  if (seq_len <? 0)%Z || (d_model <? 0)%Z then None
  else if (d_model =? 0)%Z then None
  else
    let d := Z.to_nat d_model in
    let n_div := ((d + 1) / 2)%nat in
    if bcast_ok n_div (stride_count d 0) && bcast_ok n_div (stride_count d 1)
    then Some [map (pe_row d_model n_div) (seq 0 (Z.to_nat seq_len))]
    else None.

(** [pe[0, pos, i]] *)
Definition pe_get (seq_len d_model : Z) (pos i : nat) : option R :=
  t <-? pe_table seq_len d_model ;;
  b <-? nth_error t 0 ;;
  row <-? nth_error b pos ;;
  nth_error row i.

End Numeric.

(** ** Auxiliary definitions for the statements *)
Module Views.

Section Erase.
Context {T F : Type}.

(** A module with every [attention_scores] attribute removed: what is left
    are the learned parameters, the buffers and the hyperparameters. *)
Definition mha_erase (m : MultiHeadAttentionBlock T F) : MultiHeadAttentionBlock T F :=
  mkMHA (mha_d_model m) (mha_h m) (mha_d_k m) (w_q m) (w_k m) (w_v m) (w_o m)
        (mha_dropout m) None.

Definition eb_erase (b : EncoderBlock T F) : EncoderBlock T F :=
  mkEncoderBlock (mha_erase (eb_self_attention_block b)) (eb_feed_forward_block b)
                 (eb_residual_connections b).

Definition db_erase (b : DecoderBlock T F) : DecoderBlock T F :=
  mkDecoderBlock (mha_erase (db_self_attention_block b)) (mha_erase (db_cross_attention_block b))
                 (db_feed_forward_block b) (db_residual_connection b).

Definition erase (m : Transformer T F) : Transformer T F :=
  mkTransformer (mkEncoder (map eb_erase (enc_layers (encoder m))) (enc_norm (encoder m)))
                (mkDecoder (map db_erase (dec_layers (decoder m))) (dec_norm (decoder m)))
                (src_embed m) (tgt_embed m) (src_pos m) (tgt_pos m) (projection_layer m).

(** The [attention_scores] attributes of the encoder's self-attention blocks. *)
Definition encoder_scores (m : Transformer T F) : list (option T) :=
  map (fun b => attention_scores (eb_self_attention_block b)) (enc_layers (encoder m)).

End Erase.

Section Effects.
Context {T F Rng : Type} `{Tensor T F Rng}.

(** A computation that neither reads nor advances the random state. *)
Definition rng_free {A} (c : M Rng A) : Prop :=
  forall g1 g2,
    match c g1, c g2 with
    | Some (a1, g1'), Some (a2, g2') => a1 = a2 /\ g1' = g1 /\ g2' = g2
    | None, None => True
    | _, _ => False
    end.

(** The spec's wording of a residual sublayer: [x + dropout(sublayer(norm(x)))]. *)
Definition prenorm_residual {S : Type} (norm : T -> option T) (drop : T -> M Rng T)
  (sublayer : T -> S -> M Rng (T * S)) (x : T) (s : S) : M Rng (T * S) :=
  '(y, s') <- (n <- lift (norm x) ;; sublayer n s) ;;
  d <- drop y ;;
  r <- lift (add x d) ;;
  ret (r, s').

End Effects.

(** Shape-level well-formedness of the modules [build_transformer] makes. *)
Section WellFormed.
Import Shape.

Definition lin_wf (i o : Z) (l : Linear Sh) : Prop :=
  dims (weight l) = [o; i] /\ dims (lbias l) = [o].

Definition ln_wf (ln : LayerNormalization Sh Q) : Prop :=
  dims (alpha ln) = [1] /\ dims (ln_bias ln) = [1].

Definition mha_wf (d h dk : Z) (m : MultiHeadAttentionBlock Sh Q) : Prop :=
  mha_h m = h /\ mha_d_k m = dk /\
  lin_wf d d (w_q m) /\ lin_wf d d (w_k m) /\ lin_wf d d (w_v m) /\ lin_wf d d (w_o m).

Definition ffb_wf (d d_ff : Z) (f : FeedForwardBlock Sh Q) : Prop :=
  lin_wf d d_ff (linear_1 f) /\ lin_wf d_ff d (linear_2 f).

Definition res_wf (r : ResidualConnection Sh Q) : Prop := ln_wf (res_norm r).

Definition eb_wf (d h dk d_ff : Z) (b : EncoderBlock Sh Q) : Prop :=
  mha_wf d h dk (eb_self_attention_block b) /\ ffb_wf d d_ff (eb_feed_forward_block b) /\
  exists r0 r1, eb_residual_connections b = [r0; r1] /\ res_wf r0 /\ res_wf r1.

(** A mask accepted by [masked_fill_] on scores of shape [(B, h, S, S)]. *)
Definition mask_ok (mask : option Sh) (B h S : Z) : Prop :=
  match mask with
  | None => True
  | Some m => masked_fill_shape (dims m) [B; h; S; S] = Some [B; h; S; S]
  end.

(** A mask accepted by [masked_fill_] on scores of shape [(B, h, T, S)]:
    [T] queries against [S] keys. *)
Definition mask_ok_qk (mask : option Sh) (B h T S : Z) : Prop :=
  match mask with
  | None => True
  | Some m => masked_fill_shape (dims m) [B; h; T; S] = Some [B; h; T; S]
  end.

Definition db_wf (d h dk d_ff : Z) (b : DecoderBlock Sh Q) : Prop :=
  mha_wf d h dk (db_self_attention_block b) /\ mha_wf d h dk (db_cross_attention_block b) /\
  ffb_wf d d_ff (db_feed_forward_block b) /\
  exists r0 r1 r2, db_residual_connection b = [r0; r1; r2] /\
                   res_wf r0 /\ res_wf r1 /\ res_wf r2.

(** A token tensor of shape [(B, S)] with indices in the vocabulary. *)
Definition tokens_ok (src : Sh) (B S V : Z) : Prop :=
  dims src = [B; S] /\ forallb (fun t => (0 <=? t) && (t <? V)) (ivals src) = true.

End WellFormed.

End Views.

Arguments Shape.bdim : simpl never.
Arguments Shape.broadcast : simpl never.
Arguments Shape.view_shape : simpl never.
Arguments Shape.prod : simpl never.

(** * Facts about the forward graph, for every tensor library *)
Module GraphFacts.
Import Views.

(** Case analysis on the results matched in a hypothesis. *)
Ltac destr_in E :=
  repeat match type of E with
         | context [match ?o with Some _ => _ | None => _ end] =>
             let E' := fresh "E" in destruct o eqn:E'; [|discriminate E]
         | context [match ?o with (_, _) => _ end] => destruct o
         end.

Section Facts.
Context {T F Rng : Type} `{Tensor T F Rng}.

Lemma bind_some {A B} (m : M Rng A) (k : A -> M Rng B) g a g' :
  m g = Some (a, g') -> bind m k g = k a g'.
Proof. intros E. unfold bind. now rewrite E. Qed.

Lemma rf_ret {A} (a : A) : rng_free (@ret Rng A a).
Proof. intros g1 g2. unfold ret. auto. Qed.

Lemma rf_lift {A} (o : option A) : rng_free (@lift Rng A o).
Proof. intros g1 g2. unfold lift. destruct o; auto. Qed.

Lemma rf_bind {A B} (m : M Rng A) (k : A -> M Rng B) :
  rng_free m -> (forall a, rng_free (k a)) -> rng_free (bind m k).
Proof.
  intros Hm Hk g1 g2. unfold bind. specialize (Hm g1 g2).
  destruct (m g1) as [[a1 g1']|], (m g2) as [[a2 g2']|]; try contradiction; auto.
  destruct Hm as (-> & -> & ->). apply Hk.
Qed.

Lemma rf_dropout_eval p x : rng_free (dropout p false x).
Proof. apply rf_ret. Qed.

(** Two runs of a random-free computation from any states. *)
Lemma rf_run {A} (c : M Rng A) g1 g2 a g1' :
  rng_free c -> c g1 = Some (a, g1') -> g1' = g1 /\ c g2 = Some (a, g2).
Proof.
  intros Hc E. specialize (Hc g1 g2). rewrite E in Hc.
  destruct (c g2) as [[a2 g2']|]; [|contradiction].
  destruct Hc as (-> & -> & ->). auto.
Qed.

(** ** The forward calls read no [attention_scores] attribute *)

Lemma mha_forward_erase training m :
  mha_forward (Rng:=Rng) training m = mha_forward training (mha_erase m).
Proof. reflexivity. Qed.

Lemma eb_forward_erase training b :
  encoder_block_forward (Rng:=Rng) training b = encoder_block_forward training (eb_erase b).
Proof.
  extensionality x. extensionality mask.
  unfold encoder_block_forward, residual_forward. cbn beta iota.
  rewrite (mha_forward_erase training (eb_self_attention_block b)). reflexivity.
Qed.

Lemma enc_layers_erase training ls :
  encoder_layers_forward (Rng:=Rng) training ls = encoder_layers_forward training (map eb_erase ls).
Proof.
  induction ls as [|l ls IH]; [reflexivity|].
  extensionality x. extensionality mask. simpl.
  rewrite (eb_forward_erase training l), IH. reflexivity.
Qed.

Lemma encoder_forward_erase training e :
  encoder_forward (Rng:=Rng) training e
  = encoder_forward training (mkEncoder (map eb_erase (enc_layers e)) (enc_norm e)).
Proof.
  extensionality x. extensionality mask. unfold encoder_forward. simpl.
  rewrite (enc_layers_erase training (enc_layers e)). reflexivity.
Qed.

Lemma db_forward_erase training b :
  decoder_block_forward (Rng:=Rng) training b = decoder_block_forward training (db_erase b).
Proof.
  extensionality x. extensionality eo. extensionality sm. extensionality tm.
  unfold decoder_block_forward, residual_forward. cbn beta iota.
  rewrite (mha_forward_erase training (db_self_attention_block b)).
  rewrite (mha_forward_erase training (db_cross_attention_block b)). reflexivity.
Qed.

Lemma dec_layers_erase training ls :
  decoder_layers_forward (Rng:=Rng) training ls = decoder_layers_forward training (map db_erase ls).
Proof.
  induction ls as [|l ls IH]; [reflexivity|].
  extensionality x. extensionality eo. extensionality sm. extensionality tm. simpl.
  rewrite (db_forward_erase training l), IH. reflexivity.
Qed.

Lemma encode_output_erase training m1 m2 src mask g :
  erase m1 = erase m2 ->
  option_map (fun r => fst (fst r)) (encode (Rng:=Rng) training m1 src mask g)
  = option_map (fun r => fst (fst r)) (encode training m2 src mask g).
Proof.
  intros E. unfold erase in E. injection E as El En _ _ Ese _ Esp _ _.
  unfold encode.
  rewrite (encoder_forward_erase training (encoder m1)), (encoder_forward_erase training (encoder m2)).
  rewrite El, En, Ese, Esp.
  unfold bind, lift, ret.
  destruct (input_embedding_forward (src_embed m2) src); [|reflexivity].
  destruct (positional_encoding_forward training (src_pos m2) t g) as [[x g1]|]; [|reflexivity].
  destruct (encoder_forward _ _ _ _ _) as [[[y e] g2]|]; reflexivity.
Qed.

Lemma mha_forward_state training m q k v mask g o m' g' :
  mha_forward (Rng:=Rng) training m q k v mask g = Some ((o, m'), g') ->
  mha_erase m' = mha_erase m /\ exists s, attention_scores m' = Some s.
Proof.
  unfold mha_forward, bind, lift, ret. intros E. destr_in E.
  injection E as <- <- <-. split; [reflexivity|eexists; reflexivity].
Qed.

Lemma residual_state {S : Type} training rc x (f : T -> S -> M Rng (T * S)) s g y s' g' :
  residual_forward training rc x f s g = Some ((y, s'), g') ->
  exists n g0 y0 g1, f n s g0 = Some ((y0, s'), g1).
Proof.
  unfold residual_forward, bind, lift, ret. intros E.
  destruct (layer_norm_forward (res_norm rc) x) as [n|]; [|discriminate].
  destruct (f n s g) as [[[y0 s0] g1]|] eqn:Ef; [|discriminate].
  destr_in E. injection E as _ <- _. eauto.
Qed.

Lemma eb_forward_state training b x mask g y b' g' :
  encoder_block_forward (Rng:=Rng) training b x mask g = Some ((y, b'), g') ->
  eb_erase b' = eb_erase b.
Proof.
  unfold encoder_block_forward, bind, lift, ret. intros E. destr_in E.
  injection E as _ <- _.
  match goal with
  | R : residual_forward _ _ _ _ (eb_self_attention_block b) _ = _ |- _ =>
      apply residual_state in R; destruct R as (n & g0 & y0 & g2 & R);
      apply mha_forward_state in R; destruct R as [HR _]
  end.
  unfold eb_erase; simpl. now rewrite HR.
Qed.

Lemma db_forward_state training b x eo sm tm g y b' g' :
  decoder_block_forward (Rng:=Rng) training b x eo sm tm g = Some ((y, b'), g') ->
  db_erase b' = db_erase b.
Proof.
  unfold decoder_block_forward, bind, lift, ret. intros E. destr_in E.
  injection E as _ <- _.
  match goal with
  | R : residual_forward _ _ _ _ (db_self_attention_block b) _ = _ |- _ =>
      apply residual_state in R; destruct R as (n & g0 & y0 & g2 & R);
      apply mha_forward_state in R; destruct R as [Rs _]
  end.
  match goal with
  | R : residual_forward _ _ _ _ _ _ = Some (_, _, _) |- _ =>
      apply residual_state in R; destruct R as (n' & g0' & y0' & g2' & R);
      apply mha_forward_state in R; destruct R as [Rc _]
  end.
  unfold db_erase; simpl. now rewrite Rs, Rc.
Qed.

Lemma enc_layers_state training ls x mask g y ls' g' :
  encoder_layers_forward (Rng:=Rng) training ls x mask g = Some ((y, ls'), g') ->
  map eb_erase ls' = map eb_erase ls.
Proof.
  revert x g y ls' g'.
  induction ls as [|l ls IH]; simpl; intros x g y ls' g' E.
  - injection E as _ <- _. reflexivity.
  - unfold bind, ret in E. destr_in E. injection E as _ <- _. simpl. f_equal.
    + eapply eb_forward_state; eassumption.
    + eapply IH; eassumption.
Qed.

Lemma dec_layers_state training ls x eo sm tm g y ls' g' :
  decoder_layers_forward (Rng:=Rng) training ls x eo sm tm g = Some ((y, ls'), g') ->
  map db_erase ls' = map db_erase ls.
Proof.
  revert x g y ls' g'.
  induction ls as [|l ls IH]; simpl; intros x g y ls' g' E.
  - injection E as _ <- _. reflexivity.
  - unfold bind, ret in E. destr_in E. injection E as _ <- _. simpl. f_equal.
    + eapply db_forward_state; eassumption.
    + eapply IH; eassumption.
Qed.

Lemma encoder_forward_state training e x mask g y e' g' :
  encoder_forward (Rng:=Rng) training e x mask g = Some ((y, e'), g') ->
  map eb_erase (enc_layers e') = map eb_erase (enc_layers e) /\ enc_norm e' = enc_norm e.
Proof.
  unfold encoder_forward, bind, lift, ret. intros E.
  destruct (encoder_layers_forward training (enc_layers e) x mask g) as [[[x1 ls] g1]|] eqn:R;
    [|discriminate].
  destr_in E. injection E as _ <- _. apply enc_layers_state in R. simpl. auto.
Qed.

Lemma decoder_forward_state training d x eo sm tm g y d' g' :
  decoder_forward (Rng:=Rng) training d x eo sm tm g = Some ((y, d'), g') ->
  map db_erase (dec_layers d') = map db_erase (dec_layers d) /\ dec_norm d' = dec_norm d.
Proof.
  unfold decoder_forward, bind, lift, ret. intros E.
  destruct (decoder_layers_forward training (dec_layers d) x eo sm tm g) as [[[x1 ls] g1]|] eqn:R;
    [|discriminate].
  destr_in E. injection E as _ <- _. apply dec_layers_state in R. simpl. auto.
Qed.

Lemma encode_state training m src mask g y m' g' :
  encode (Rng:=Rng) training m src mask g = Some ((y, m'), g') -> erase m' = erase m.
Proof.
  unfold encode, bind, lift, ret. intros E.
  destruct (input_embedding_forward (src_embed m) src) as [x|]; [|discriminate].
  destruct (positional_encoding_forward training (src_pos m) x g) as [[x1 g1]|]; [|discriminate].
  destruct (encoder_forward training (encoder m) x1 mask g1) as [[[y1 e] g2]|] eqn:R;
    [|discriminate].
  injection E as _ <- _. apply encoder_forward_state in R. destruct R as [R1 R2].
  unfold erase; simpl. now rewrite R1, R2.
Qed.

Lemma decode_state training m eo sm tgt tm g y m' g' :
  decode (Rng:=Rng) training m eo sm tgt tm g = Some ((y, m'), g') -> erase m' = erase m.
Proof.
  unfold decode, bind, lift, ret. intros E.
  destruct (input_embedding_forward (tgt_embed m) tgt) as [x|]; [|discriminate].
  destruct (positional_encoding_forward training (tgt_pos m) x g) as [[x1 g1]|]; [|discriminate].
  destruct (decoder_forward training (decoder m) x1 eo sm tm g1) as [[[y1 d] g2]|] eqn:R;
    [|discriminate].
  injection E as _ <- _. apply decoder_forward_state in R. destruct R as [R1 R2].
  unfold erase; simpl. now rewrite R1, R2.
Qed.

End Facts.

Create HintDb rngfree.
#[export] Hint Resolve rf_ret rf_lift rf_dropout_eval : rngfree.

(** Apply the composition lemmas through a chain of binds. *)
Ltac rf_chain :=
  repeat first
    [ apply rf_bind; [| let a := fresh "a" in intros a;
                        match type of a with (_ * _)%type => destruct a | _ => idtac end ]
    | solve [ eauto with rngfree ] ].

(** ** In evaluation mode the forward calls draw nothing *)
Section Eval.
Context {T F Rng : Type} `{Tensor T F Rng}.

Lemma rf_attention_eval q k v mask p :
  rng_free (attention (Rng:=Rng) q k v mask (Some (p, false))).
Proof. unfold attention. rf_chain. Qed.

Lemma rf_mha_eval m q k v mask : rng_free (mha_forward (Rng:=Rng) false m q k v mask).
Proof.
  unfold mha_forward. rf_chain.
Qed.

Lemma rf_ffb_eval f x : rng_free (feed_forward_forward (Rng:=Rng) false f x).
Proof. unfold feed_forward_forward. rf_chain. Qed.

Lemma rf_residual_eval {S : Type} rc x (f : T -> S -> M Rng (T * S)) s :
  (forall n s, rng_free (f n s)) -> rng_free (residual_forward false rc x f s).
Proof. intros Hf. unfold residual_forward. rf_chain. Qed.

Lemma rf_eb_eval b x mask : rng_free (encoder_block_forward (Rng:=Rng) false b x mask).
Proof.
  unfold encoder_block_forward. rf_chain.
Qed.

Lemma rf_enc_layers_eval ls x mask : rng_free (encoder_layers_forward (Rng:=Rng) false ls x mask).
Proof.
  revert x. induction ls as [|l ls IH]; intros x; simpl; rf_chain.
Qed.

Lemma rf_encode_eval m src mask : rng_free (encode (Rng:=Rng) false m src mask).
Proof.
  unfold encode, encoder_forward, positional_encoding_forward. rf_chain.
  all: apply rf_enc_layers_eval.
Qed.
(** In evaluation mode the output depends on the erased model only, not on
    the random state. *)
Lemma encode_eval_outputs m1 m2 src mask (g1 g2 : Rng) :
  erase m1 = erase m2 ->
  option_map (fun r => fst (fst r)) (encode false m1 src mask g1)
  = option_map (fun r => fst (fst r)) (encode false m2 src mask g2).
Proof.
  intros E. rewrite (encode_output_erase false m1 m2 src mask g1 E).
  pose proof (rf_encode_eval m2 src mask g1 g2) as Hrf.
  destruct (encode false m2 src mask g1) as [[r1 g1']|],
           (encode false m2 src mask g2) as [[r2 g2']|]; try contradiction;
    [destruct Hrf as (-> & _ & _)|]; reflexivity.
Qed.

End Eval.

End GraphFacts.

(** * Shapes through the graph, in the shape interpretation *)
Module ShapeFacts.
Import Views GraphFacts Shape Construction.

(** ** Broadcasting, products and views *)

Lemma bdim_refl a : bdim a a = Some a.
Proof. unfold bdim. now rewrite Z.eqb_refl. Qed.

Lemma bdim_1_l b : bdim 1 b = Some b.
Proof. unfold bdim. destruct (Z.eqb_spec 1 b); subst; reflexivity. Qed.

Lemma bdim_1_r a : bdim a 1 = Some a.
Proof.
  unfold bdim. destruct (Z.eqb_spec a 1); [now subst|].
  replace (a =? 1) with false by (symmetry; now apply Z.eqb_neq). reflexivity.
Qed.

Lemma bcast_rev_same r : bcast_rev r r = Some r.
Proof. induction r as [|a r IH]; [reflexivity|]. simpl. rewrite bdim_refl, IH. reflexivity. Qed.

Lemma broadcast_same s : broadcast s s = Some s.
Proof. unfold broadcast. rewrite bcast_rev_same. simpl. now rewrite rev_involutive. Qed.

Lemma broadcast_keepdim B S d : broadcast [B; S; d] [B; S; 1] = Some [B; S; d].
Proof. unfold broadcast. simpl. rewrite bdim_1_r, !bdim_refl. reflexivity. Qed.

Lemma broadcast_scalar_l B S d : broadcast [1] [B; S; d] = Some [B; S; d].
Proof. unfold broadcast. simpl. rewrite bdim_1_l. reflexivity. Qed.

Lemma broadcast_scalar_r B S d : broadcast [B; S; d] [1] = Some [B; S; d].
Proof. unfold broadcast. simpl. rewrite bdim_1_r. reflexivity. Qed.

Lemma broadcast_batch B S d : broadcast [B; S; d] [1; S; d] = Some [B; S; d].
Proof. unfold broadcast. simpl. rewrite !bdim_refl, bdim_1_r. reflexivity. Qed.

Lemma linear_shape_ok B S i o : linear_shape [B; S; i] [o; i] [o] = Some [B; S; o].
Proof. unfold linear_shape. simpl. rewrite !Z.eqb_refl. reflexivity. Qed.

Lemma matmul_scores B h S dk : matmul_shape [B; h; S; dk] [B; h; dk; S] = Some [B; h; S; S].
Proof. unfold matmul_shape. simpl. rewrite Z.eqb_refl. simpl. rewrite !bdim_refl. reflexivity. Qed.

Lemma matmul_values B h S dk : matmul_shape [B; h; S; S] [B; h; S; dk] = Some [B; h; S; dk].
Proof. unfold matmul_shape. simpl. rewrite Z.eqb_refl. simpl. rewrite !bdim_refl. reflexivity. Qed.

Ltac zfacts :=
  repeat match goal with
         | |- context [?a <? ?b] =>
             first [ rewrite (proj2 (Z.ltb_ge a b)) by nia | rewrite (proj2 (Z.ltb_lt a b)) by nia ]
         | |- context [?a =? ?b] =>
             first [ rewrite (Z.eqb_refl a) | rewrite (proj2 (Z.eqb_neq a b)) by nia ]
         end.

Lemma view_split B S h dk :
  1 <= B -> 0 <= S -> 1 <= h -> 1 <= dk ->
  view_shape [B; -1; h; dk] (prod [B; S; h * dk]) = Some [B; S; h; dk].
Proof.
  intros HB HS Hh Hd. unfold view_shape, prod.
  cbn [existsb filter map fold_right]. zfacts. cbn [orb negb andb filter fold_right].
  replace (B * (S * (h * dk * 1))) with (S * (B * (h * (dk * 1)))) by ring.
  rewrite Z.mod_mul by nia. rewrite Z.eqb_refl. cbn [andb].
  rewrite Z.div_mul by nia. zfacts. reflexivity.
Qed.

Lemma view_merge B S h dk :
  1 <= B -> 0 <= S -> 1 <= h -> 1 <= dk ->
  view_shape [B; -1; h * dk] (prod [B; S; h; dk]) = Some [B; S; h * dk].
Proof.
  intros HB HS Hh Hd. unfold view_shape, prod.
  cbn [existsb filter map fold_right]. zfacts. cbn [orb negb andb filter fold_right].
  replace (B * (S * (h * (dk * 1)))) with (S * (B * (h * dk * 1))) by ring.
  rewrite Z.mod_mul by nia. rewrite Z.eqb_refl. cbn [andb].
  rewrite Z.div_mul by nia. zfacts. reflexivity.
Qed.

(** ** The modules of an encoder layer *)

Lemma ln_shape ln x B S d :
  ln_wf ln -> dims x = [B; S; d] -> layer_norm_forward ln x = Some (mk [B; S; d]).
Proof.
  intros [Ha Hb] Hx. unfold layer_norm_forward. simpl. rewrite Hx. simpl.
  rewrite broadcast_keepdim. simpl. rewrite Ha, broadcast_scalar_l. simpl.
  rewrite broadcast_keepdim. simpl. rewrite Hb, broadcast_scalar_r. reflexivity.
Qed.

Lemma split_heads_shape x B S h dk :
  1 <= B -> 0 <= S -> 1 <= h -> 1 <= dk -> dims x = [B; S; h * dk] ->
  split_heads h dk x = Some (mk [B; h; S; dk]).
Proof.
  intros HB HS Hh Hd Hx. unfold split_heads. simpl. rewrite Hx. unfold dim. simpl. rewrite Hx.
  simpl. rewrite view_split by lia. reflexivity.
Qed.

Lemma merge_heads_shape x B S h dk :
  1 <= B -> 0 <= S -> 1 <= h -> 1 <= dk -> dims x = [B; h; S; dk] ->
  merge_heads h dk x = Some (mk [B; S; h * dk]).
Proof.
  intros HB HS Hh Hd Hx. unfold merge_heads. simpl. rewrite Hx. unfold dim. simpl. rewrite Hx.
  simpl. change (list_swap [B; h; S; dk] _ _) with [B; S; h; dk].
  rewrite view_merge by lia. reflexivity.
Qed.

Lemma attention_shape q k v mask p training B h S dk :
  1 <= dk -> dims q = [B; h; S; dk] -> dims k = [B; h; S; dk] -> dims v = [B; h; S; dk] ->
  mask_ok mask B h S ->
  attention q k v mask (Some (p, training)) tt
  = Some ((mk [B; h; S; dk], mk [B; h; S; S]), tt).
Proof.
  intros Hd Hq Hk Hv Hm. unfold attention, bind, lift, ret. unfold dim. simpl.
  rewrite Hq, Hk. simpl. rewrite matmul_scores. simpl.
  replace (dk <? 0) with false by lia.
  destruct mask as [m|]; simpl in Hm |- *; [rewrite Hm|]; simpl;
    (destruct training; simpl; rewrite broadcast_same; simpl; rewrite Hv, matmul_values;
     reflexivity).
Qed.

Lemma linear_forward_shape l x B S i o :
  lin_wf i o l -> dims x = [B; S; i] -> linear_forward l x = Some (mk [B; S; o]).
Proof.
  intros [Hw Hb] Hx. unfold linear_forward. simpl. rewrite Hx, Hw, Hb, linear_shape_ok.
  reflexivity.
Qed.

Lemma mha_shape training m x mask B S h dk :
  mha_wf (h * dk) h dk m -> dims x = [B; S; h * dk] ->
  1 <= B -> 0 <= S -> 1 <= h -> 1 <= dk -> mask_ok mask B h S ->
  exists m', mha_forward training m x x x mask tt = Some ((mk [B; S; h * dk], m'), tt).
Proof.
  intros (Hh & Hdk & Hq & Hk & Hv & Ho) Hx HB HS H1 H2 Hm.
  unfold mha_forward, bind, lift, ret.
  rewrite (linear_forward_shape _ _ _ _ _ _ Hq Hx), (linear_forward_shape _ _ _ _ _ _ Hk Hx),
          (linear_forward_shape _ _ _ _ _ _ Hv Hx).
  rewrite Hh, Hdk, !(split_heads_shape (mk [B; S; h * dk]) B S h dk) by (auto; reflexivity).
  rewrite (attention_shape _ _ _ _ _ _ B h S dk) by (auto; reflexivity).
  rewrite (merge_heads_shape (mk [B; h; S; dk]) B S h dk) by (auto; reflexivity).
  rewrite (linear_forward_shape _ _ _ _ _ _ Ho) by reflexivity.
  eexists. reflexivity.
Qed.


Lemma ffb_shape training f x B S d d_ff :
  ffb_wf d d_ff f -> dims x = [B; S; d] ->
  feed_forward_forward training f x tt = Some (mk [B; S; d], tt).
Proof.
  intros [H1 H2] Hx. unfold feed_forward_forward, bind, lift, ret.
  rewrite (linear_forward_shape _ _ _ _ _ _ H1 Hx).
  destruct training; unfold dropout, ret; cbn [relu ShapeTensor dropout_train dims];
    rewrite (linear_forward_shape _ _ _ _ _ _ H2) by reflexivity; reflexivity.
Qed.

Lemma residual_shape {S0 : Type} training rc x (f : Sh -> S0 -> M unit (Sh * S0)) s s' B S d :
  res_wf rc -> dims x = [B; S; d] ->
  f (mk [B; S; d]) s tt = Some ((mk [B; S; d], s'), tt) ->
  residual_forward training rc x f s tt = Some ((mk [B; S; d], s'), tt).
Proof.
  intros Hr Hx Hf. unfold residual_forward, bind, lift, ret.
  rewrite (ln_shape _ _ _ _ _ Hr Hx), Hf.
  destruct training; simpl; rewrite Hx, broadcast_same; reflexivity.
Qed.

Lemma eb_shape training b x mask B S h dk d_ff :
  eb_wf (h * dk) h dk d_ff b -> dims x = [B; S; h * dk] ->
  1 <= B -> 0 <= S -> 1 <= h -> 1 <= dk -> mask_ok mask B h S ->
  exists b', encoder_block_forward training b x mask tt = Some ((mk [B; S; h * dk], b'), tt).
Proof.
  intros (Hm & Hf & r0 & r1 & Hrs & H0 & H1) Hx HB HS Hh Hd Hmask.
  destruct (mha_shape training (eb_self_attention_block b) (mk [B; S; h * dk]) mask B S h dk)
    as [sa' Hsa]; auto.
  unfold encoder_block_forward. rewrite Hrs.
  rewrite (bind_some _ _ tt r0 tt) by reflexivity.
  rewrite (bind_some _ _ tt (mk [B; S; h * dk], sa') tt)
    by (apply (residual_shape training r0 x _ _ sa' B S (h * dk) H0 Hx Hsa)).
  rewrite (bind_some _ _ tt r1 tt) by reflexivity.
  rewrite (bind_some _ _ tt (mk [B; S; h * dk], tt) tt).
  - eexists. reflexivity.
  - apply (residual_shape training r1 (mk [B; S; h * dk]) _ tt tt B S (h * dk) H1 eq_refl).
    unfold stateless. rewrite (bind_some _ _ tt (mk [B; S; h * dk]) tt).
    + reflexivity.
    + apply (ffb_shape training _ (mk [B; S; h * dk]) B S (h * dk) d_ff Hf eq_refl).
Qed.

Lemma enc_layers_shape training ls mask B S h dk d_ff :
  Forall (eb_wf (h * dk) h dk d_ff) ls ->
  1 <= B -> 0 <= S -> 1 <= h -> 1 <= dk -> mask_ok mask B h S ->
  exists ls', encoder_layers_forward training ls (mk [B; S; h * dk]) mask tt
              = Some ((mk [B; S; h * dk], ls'), tt).
Proof.
  intros Hall HB HS Hh Hd Hmask. induction Hall as [|b ls Hb Hall IH].
  - eexists. reflexivity.
  - destruct (eb_shape training b (mk [B; S; h * dk]) mask B S h dk d_ff) as [b' Eb]; auto.
    destruct IH as [ls' Els]. simpl.
    rewrite (bind_some _ _ tt (mk [B; S; h * dk], b') tt Eb).
    rewrite (bind_some _ _ tt (mk [B; S; h * dk], ls') tt Els).
    eexists. reflexivity.
Qed.

Lemma encoder_forward_shape training e mask B S h dk d_ff :
  Forall (eb_wf (h * dk) h dk d_ff) (enc_layers e) -> ln_wf (enc_norm e) ->
  1 <= B -> 0 <= S -> 1 <= h -> 1 <= dk -> mask_ok mask B h S ->
  exists e', encoder_forward training e (mk [B; S; h * dk]) mask tt
             = Some ((mk [B; S; h * dk], e'), tt).
Proof.
  intros Hall Hn HB HS Hh Hd Hmask.
  destruct (enc_layers_shape training (enc_layers e) mask B S h dk d_ff) as [ls' E]; auto.
  unfold encoder_forward. rewrite (bind_some _ _ tt (mk [B; S; h * dk], ls') tt E).
  rewrite (bind_some _ _ tt (mk [B; S; h * dk]) tt).
  - eexists. reflexivity.
  - unfold lift. rewrite (ln_shape _ (mk [B; S; h * dk]) B S (h * dk) Hn eq_refl). reflexivity.
Qed.

Lemma embedding_shape_ok ie src B S V d :
  ie_d_model ie = d -> dims (ie_embedding ie) = [V; d] -> 0 <= d ->
  tokens_ok src B S V -> input_embedding_forward ie src = Some (mk [B; S; d]).
Proof.
  intros Hd He Hd0 [Hs Hv]. unfold input_embedding_forward. cbn [embedding ShapeTensor].
  rewrite He. unfold embedding_shape. rewrite Hv, Hs, Hd. simpl. destruct (Z.ltb_spec d 0); [lia|]. reflexivity.
Qed.

Lemma pe_forward_shape training pos B S L d :
  dims (pe pos) = [1; L; d] -> 0 <= S <= L ->
  positional_encoding_forward training pos (mk [B; S; d]) tt = Some (mk [B; S; d], tt).
Proof.
  intros Hp HS. unfold positional_encoding_forward, bind, lift. simpl.
  rewrite Hp. simpl. unfold pystop.
  destruct (Z.ltb_spec S 0); [lia|]. rewrite Z.min_l by lia.
  rewrite broadcast_batch. destruct training; reflexivity.
Qed.

(** ** What the constructors build *)

Lemma linear_new_wf i o l : linear_new i o = Some l -> lin_wf i o l.
Proof.
  unfold linear_new. destruct (_ || _); [discriminate|]. intros E. injection E as <-.
  split; reflexivity.
Qed.

Lemma mha_new_wf d h p m :
  mha_new d h p = Some m -> mha_wf d h (d / h) m /\ h <> 0 /\ d mod h = 0.
Proof.
  unfold mha_new. destruct (Z.eqb_spec h 0); [discriminate|].
  destruct (Z.eqb_spec (d mod h) 0); [|discriminate]. cbn [negb].
  destruct (linear_new d d) as [w|] eqn:Ew; [|discriminate]. cbn [obind].
  destruct (dropout_new p); [|discriminate]. cbn [obind]. intros E. injection E as <-.
  apply linear_new_wf in Ew. repeat split; auto; apply Ew.
Qed.

Lemma ffb_new_wf d d_ff p f : feed_forward_new d d_ff p = Some f -> ffb_wf d d_ff f.
Proof.
  unfold feed_forward_new.
  destruct (linear_new d d_ff) as [l1|] eqn:E1; [|discriminate]. cbn [obind].
  destruct (dropout_new p); [|discriminate]. cbn [obind].
  destruct (linear_new d_ff d) as [l2|] eqn:E2; [|discriminate]. cbn [obind].
  intros E. injection E as <-. split; apply linear_new_wf; assumption.
Qed.

Lemma residuals_new_wf n p rs :
  residuals_new n p = Some rs -> length rs = n /\ Forall res_wf rs.
Proof.
  revert rs. induction n as [|n IH]; intros rs; cbn [residuals_new].
  - intros E. injection E as <-. auto.
  - unfold residual_new. destruct (dropout_new p); [|discriminate]. cbn [obind].
    destruct (residuals_new n p) as [rs'|]; [|discriminate]. cbn [obind].
    intros E. injection E as <-. destruct (IH rs' eq_refl) as [Hl Hf].
    split; [simpl; congruence|]. constructor; [split; reflexivity | exact Hf].
Qed.

Lemma encoder_blocks_new_wf n d h d_ff p bs :
  encoder_blocks_new n d h d_ff p = Some bs ->
  Forall (eb_wf d h (d / h) d_ff) bs /\ (bs = [] \/ (h <> 0 /\ d mod h = 0)).
Proof.
  revert bs. induction n as [|n IH]; intros bs; cbn [encoder_blocks_new].
  - intros E. injection E as <-. auto.
  - destruct (mha_new d h p) as [sa|] eqn:Es; [|discriminate]. cbn [obind].
    destruct (feed_forward_new d d_ff p) as [ff|] eqn:Ef; [|discriminate]. cbn [obind].
    destruct (residuals_new 2 p) as [rs|] eqn:Er; [|discriminate]. cbn [obind].
    destruct (encoder_blocks_new n d h d_ff p) as [bs'|]; [|discriminate]. cbn [obind].
    intros E. injection E as <-.
    apply mha_new_wf in Es as (Hm & Hh & Hmod). apply ffb_new_wf in Ef.
    apply residuals_new_wf in Er as [Hl Hr].
    destruct rs as [|r0 [|r1 [|]]]; try discriminate.
    rewrite !Forall_cons_iff in Hr. destruct Hr as (H0 & H1 & _).
    split; [|right; auto]. constructor; [|apply (IH bs' eq_refl)].
    split; [exact Hm|]. split; [exact Ef|]. exists r0, r1. auto.
Qed.

Lemma input_embedding_new_wf d V ie :
  input_embedding_new d V = Some ie ->
  ie_d_model ie = d /\ dims (ie_embedding ie) = [V; d] /\ 0 <= d.
Proof.
  unfold input_embedding_new. destruct (Z.ltb_spec V 0), (Z.ltb_spec d 0); try discriminate.
  intros E. injection E as <-. auto.
Qed.

Lemma positional_encoding_new_wf d L p pos :
  positional_encoding_new d L p = Some pos ->
  dims (pe pos) = [1; L; d] /\ pe_d_model pos = d /\ pe_seq_len pos = L /\ 0 <= L /\ 1 <= d.
Proof.
  unfold positional_encoding_new. destruct (dropout_new p); [|discriminate]. cbn [obind].
  destruct (Z.ltb_spec L 0), (Z.ltb_spec d 0); try discriminate. cbn [orb].
  destruct (Z.eqb_spec d 0); [discriminate|]. destruct (pe_columns_ok d); [|discriminate].
  intros E. injection E as <-. repeat split; auto; lia.
Qed.

(** What the constructor of the encoder side produces. *)
Lemma build_encoder_wf sv tv sl tl d N h p d_ff m :
  build_transformer sv tv sl tl d N h p d_ff = Some m ->
  ie_d_model (src_embed m) = d /\ dims (ie_embedding (src_embed m)) = [sv; d] /\
  dims (pe (src_pos m)) = [1; sl; d] /\ 1 <= d /\
  Forall (eb_wf d h (d / h) d_ff) (enc_layers (encoder m)) /\
  (enc_layers (encoder m) = [] \/ (h <> 0 /\ d mod h = 0)) /\
  enc_norm (encoder m) = layer_norm_new.
Proof.
  unfold build_transformer.
  destruct (input_embedding_new d sv) as [se|] eqn:Ese; [|discriminate]. cbn [obind].
  destruct (input_embedding_new d tv) as [te|]; [|discriminate]. cbn [obind].
  destruct (positional_encoding_new d sl p) as [sp|] eqn:Esp; [|discriminate]. cbn [obind].
  destruct (positional_encoding_new d tl p) as [tp|]; [|discriminate]. cbn [obind].
  destruct (encoder_blocks_new _ d h d_ff p) as [ebs|] eqn:Eb; [|discriminate]. cbn [obind].
  destruct (decoder_blocks_new _ d h d_ff p) as [dbs|]; [|discriminate]. cbn [obind].
  destruct (linear_new d tv) as [pl|]; [|discriminate]. cbn [obind].
  destruct (forallb _ _); [|discriminate]. intros E. injection E as <-. cbn.
  apply input_embedding_new_wf in Ese as (H1 & H2 & _).
  apply positional_encoding_new_wf in Esp as (H3 & _ & _ & _ & H4).
  apply encoder_blocks_new_wf in Eb as [H5 H6]. auto 7.
Qed.

Lemma ln_new_wf : ln_wf layer_norm_new.
Proof. split; reflexivity. Qed.

(** ** The output of [Transformer.encode] *)

Lemma encode_shape training sv tv sl tl d N h p d_ff m src mask B S :
  build_transformer sv tv sl tl d N h p d_ff = Some m ->
  0 < h -> 1 <= B -> 0 <= S <= sl -> tokens_ok src B S sv -> mask_ok mask B h S ->
  exists m', encode training m src mask tt = Some ((mk [B; S; d], m'), tt).
Proof.
  intros Hb Hh HB HS Htok Hmask.
  destruct (build_encoder_wf _ _ _ _ _ _ _ _ _ _ Hb)
    as (Hie & Hemb & Hpe & Hd1 & Hall & Hcase & Hnorm).
  unfold encode.
  rewrite (bind_some _ _ tt (mk [B; S; d]) tt)
    by (unfold lift; rewrite (embedding_shape_ok _ _ B S sv d Hie Hemb ltac:(lia) Htok);
        reflexivity).
  rewrite (bind_some _ _ tt (mk [B; S; d]) tt) by (apply (pe_forward_shape _ _ _ _ sl _ Hpe HS)).
  assert (He : exists e', encoder_forward training (encoder m) (mk [B; S; d]) mask tt
                          = Some ((mk [B; S; d], e'), tt)).
  { destruct Hcase as [Hnil | [Hh0 Hmod]].
    - unfold encoder_forward. rewrite Hnil. cbn [encoder_layers_forward].
      rewrite (bind_some _ _ tt (mk [B; S; d], []) tt) by reflexivity.
      rewrite (bind_some _ _ tt (mk [B; S; d]) tt).
      + eexists. reflexivity.
      + unfold lift. rewrite Hnorm, (ln_shape _ (mk [B; S; d]) B S d ln_new_wf eq_refl).
        reflexivity.
    - remember (d / h) as dk eqn:Edk.
      assert (Hd : d = h * dk) by (subst dk; apply Z.div_exact; auto).
      assert (1 <= dk) by nia. clear Edk Hie Hb Hemb Hpe Htok. subst d.
      apply (encoder_forward_shape training _ mask B S h dk d_ff); auto; try lia.
      rewrite Hnorm. apply ln_new_wf. }
  destruct He as [e' He]. rewrite (bind_some _ _ tt (mk [B; S; d], e') tt He).
  eexists. reflexivity.
Qed.

End ShapeFacts.

(** * The constructors: parameter shapes and the conditions of success *)
Module BuildFacts.
Import Views GraphFacts Shape Construction ShapeFacts.

(** ** [nn.init.xavier_uniform] accepts every parameter built *)

Lemma xavier_pair a b : 0 <= a -> 0 <= b -> 1 <= a + b -> xavier_ok [a; b] = true.
Proof.
  intros. unfold xavier_ok, prod. cbn [fold_right].
  rewrite Z.mul_1_r. destruct (Z.eqb_spec (b + a) 0); [lia|reflexivity].
Qed.

Lemma xavier_single a : xavier_ok [a] = true.
Proof. reflexivity. Qed.

Lemma Forall_flat_map_intro {A B} (P : B -> Prop) (f : A -> list B) l :
  Forall (fun x => Forall P (f x)) l -> Forall P (flat_map f l).
Proof.
  induction 1; simpl; [constructor|]. apply Forall_app; auto.
Qed.

Lemma linear_new_xavier i o l :
  linear_new i o = Some l -> 1 <= i + o -> Forall (fun s => xavier_ok s = true) (linear_params l).
Proof.
  unfold linear_new. destruct (Z.ltb_spec i 0), (Z.ltb_spec o 0); try discriminate.
  intros E Hio. injection E as <-. repeat constructor. apply xavier_pair; lia.
Qed.

Lemma mha_new_xavier d h p m :
  mha_new d h p = Some m -> 1 <= d -> Forall (fun s => xavier_ok s = true) (mha_params m).
Proof.
  unfold mha_new. destruct (h =? 0); [discriminate|]. destruct (negb _); [discriminate|].
  destruct (linear_new d d) as [w|] eqn:Ew; [|discriminate]. cbn [obind].
  destruct (dropout_new p); [|discriminate]. cbn [obind]. intros E Hd. injection E as <-.
  unfold mha_params. cbn [w_q w_k w_v w_o].
  pose proof (linear_new_xavier d d w Ew ltac:(lia)). rewrite !Forall_app. auto.
Qed.

Lemma ffb_new_xavier d d_ff p f :
  feed_forward_new d d_ff p = Some f -> 1 <= d -> Forall (fun s => xavier_ok s = true) (ffb_params f).
Proof.
  unfold feed_forward_new.
  destruct (linear_new d d_ff) as [l1|] eqn:E1; [|discriminate]. cbn [obind].
  destruct (dropout_new p); [|discriminate]. cbn [obind].
  destruct (linear_new d_ff d) as [l2|] eqn:E2; [|discriminate]. cbn [obind].
  intros E Hd. injection E as <-. unfold ffb_params. cbn [linear_1 linear_2].
  assert (0 <= d_ff).
  { unfold linear_new in E1. destruct (Z.ltb_spec d 0), (Z.ltb_spec d_ff 0); try discriminate. lia. }
  apply Forall_app. split; [eapply linear_new_xavier; [eassumption|lia]..].
Qed.

Lemma residuals_xavier rs : Forall res_wf rs -> Forall (fun s => xavier_ok s = true) (residuals_params rs).
Proof.
  intros Hr. apply Forall_flat_map_intro. eapply Forall_impl; [|exact Hr].
  intros r [Ha Hb]. unfold ln_params. rewrite Ha, Hb. repeat constructor.
Qed.

Lemma encoder_blocks_new_xavier n d h d_ff p bs :
  encoder_blocks_new n d h d_ff p = Some bs -> 1 <= d ->
  Forall (fun b => Forall (fun s => xavier_ok s = true)
    (mha_params (eb_self_attention_block b) ++ ffb_params (eb_feed_forward_block b)
     ++ residuals_params (eb_residual_connections b))) bs.
Proof.
  intros Hb Hd. revert bs Hb. induction n as [|n IH]; intros bs; cbn [encoder_blocks_new].
  - intros E. injection E as <-. constructor.
  - destruct (mha_new d h p) as [sa|] eqn:Es; [|discriminate]. cbn [obind].
    destruct (feed_forward_new d d_ff p) as [ff|] eqn:Ef; [|discriminate]. cbn [obind].
    destruct (residuals_new 2 p) as [rs|] eqn:Er; [|discriminate]. cbn [obind].
    destruct (encoder_blocks_new n d h d_ff p) as [bs'|]; [|discriminate]. cbn [obind].
    intros E. injection E as <-. constructor; [|apply IH; reflexivity].
    cbv beta. cbn [eb_self_attention_block eb_feed_forward_block eb_residual_connections].
    apply residuals_new_wf in Er as [_ Er].
    rewrite !Forall_app. split; [eapply mha_new_xavier; eauto|].
    split; [eapply ffb_new_xavier; eauto|]. apply residuals_xavier; auto.
Qed.

Lemma decoder_blocks_new_xavier n d h d_ff p bs :
  decoder_blocks_new n d h d_ff p = Some bs -> 1 <= d ->
  Forall (fun b => Forall (fun s => xavier_ok s = true)
    (mha_params (db_self_attention_block b) ++ mha_params (db_cross_attention_block b)
     ++ ffb_params (db_feed_forward_block b)
     ++ residuals_params (db_residual_connection b))) bs.
Proof.
  intros Hb Hd. revert bs Hb. induction n as [|n IH]; intros bs; cbn [decoder_blocks_new].
  - intros E. injection E as <-. constructor.
  - destruct (mha_new d h p) as [sa|] eqn:Es; [|discriminate]. cbn [obind].
    destruct (feed_forward_new d d_ff p) as [ff|] eqn:Ef; [|discriminate]. cbn [obind].
    destruct (residuals_new 3 p) as [rs|] eqn:Er; [|discriminate]. cbn [obind].
    destruct (decoder_blocks_new n d h d_ff p) as [bs'|]; [|discriminate]. cbn [obind].
    intros E. injection E as <-. constructor; [|apply IH; reflexivity].
    cbv beta.
    cbn [db_self_attention_block db_cross_attention_block db_feed_forward_block db_residual_connection].
    apply residuals_new_wf in Er as [_ Er].
    rewrite !Forall_app. split; [eapply mha_new_xavier; eauto|].
    split; [eapply mha_new_xavier; eauto|].
    split; [eapply ffb_new_xavier; eauto|]. apply residuals_xavier; auto.
Qed.

Lemma residuals_new_some n p q : dropout_new p = Some q -> exists rs, residuals_new n p = Some rs.
Proof.
  intros Hp. induction n as [|n [rs IH]]; [eexists; reflexivity|].
  cbn [residuals_new]. unfold residual_new. rewrite Hp. cbn [obind]. rewrite IH. eexists. reflexivity.
Qed.

Lemma encoder_blocks_new_some n d h d_ff p sa ff q :
  mha_new d h p = Some sa -> feed_forward_new d d_ff p = Some ff -> dropout_new p = Some q ->
  exists bs, encoder_blocks_new n d h d_ff p = Some bs.
Proof.
  intros Hs Hf Hp. destruct (residuals_new_some 2 p q Hp) as [rs Hr].
  induction n as [|n [bs IH]]; [eexists; reflexivity|].
  cbn [encoder_blocks_new]. rewrite Hs. cbn [obind]. rewrite Hf. cbn [obind]. rewrite Hr.
  cbn [obind]. rewrite IH. eexists. reflexivity.
Qed.

Lemma decoder_blocks_new_some n d h d_ff p sa ff q :
  mha_new d h p = Some sa -> feed_forward_new d d_ff p = Some ff -> dropout_new p = Some q ->
  exists bs, decoder_blocks_new n d h d_ff p = Some bs.
Proof.
  intros Hs Hf Hp. destruct (residuals_new_some 3 p q Hp) as [rs Hr].
  induction n as [|n [bs IH]]; [eexists; reflexivity|].
  cbn [decoder_blocks_new]. rewrite Hs. cbn [obind]. rewrite Hf. cbn [obind]. rewrite Hr.
  cbn [obind]. rewrite IH. eexists. reflexivity.
Qed.

(** ** Success and failure of the constructors *)

Lemma dropout_new_valid p : (0 <= p <= 1)%Q -> dropout_new p = Some p.
Proof.
  intros [H0 H1]. unfold dropout_new.
  rewrite (proj2 (Qle_bool_iff 0 p) H0), (proj2 (Qle_bool_iff p 1) H1). reflexivity.
Qed.

Lemma mha_new_iff d h p :
  0 <= d -> h <> 0 -> (0 <= p <= 1)%Q -> mha_new d h p <> None <-> d mod h = 0.
Proof.
  intros Hd Hh Hp. unfold mha_new. rewrite (proj2 (Z.eqb_neq h 0) Hh).
  destruct (Z.eqb_spec (d mod h) 0) as [Hm|Hm]; cbn [negb].
  - unfold linear_new. destruct (Z.ltb_spec d 0); [lia|]. cbn [orb obind].
    rewrite (dropout_new_valid p Hp). cbn [obind]. split; [auto|discriminate].
  - split; [intros C; contradiction C; reflexivity | intros C; contradiction].
Qed.

Lemma pe_columns_even d : (Z.even d = true \/ d = 1) -> pe_columns_ok d = true.
Proof.
  intros [He | ->]; [|reflexivity].
  apply Z.even_spec in He as [k ->]. unfold pe_columns_ok.
  rewrite (Z.mul_comm 2 k), Z.div_add_l, Z.div_mul by lia. cbn [Z.div].
  rewrite Z.add_0_r, Z.eqb_refl. reflexivity.
Qed.

Lemma linear_new_some i o : 0 <= i -> 0 <= o -> linear_new i o = Some (mkLinear (mk [o; i]) (mk [o])).
Proof.
  intros Hi Ho. unfold linear_new. destruct (Z.ltb_spec i 0), (Z.ltb_spec o 0); try lia.
  reflexivity.
Qed.

Lemma build_fails_divisibility sv tv sl tl d N h p d_ff :
  1 <= N -> (h = 0 \/ d mod h <> 0) -> build_transformer sv tv sl tl d N h p d_ff = None.
Proof.
  intros HN Hh. assert (Hm : mha_new d h p = None).
  { unfold mha_new. destruct Hh as [-> | Hh]; [reflexivity|].
    destruct (h =? 0); [reflexivity|]. rewrite (proj2 (Z.eqb_neq _ 0) Hh). reflexivity. }
  unfold build_transformer.
  destruct (input_embedding_new d sv); [|reflexivity]. cbn [obind].
  destruct (input_embedding_new d tv); [|reflexivity]. cbn [obind].
  destruct (positional_encoding_new d sl p); [|reflexivity]. cbn [obind].
  destruct (positional_encoding_new d tl p); [|reflexivity]. cbn [obind].
  destruct (Z.to_nat N) eqn:EN; [lia|]. cbn [encoder_blocks_new]. rewrite Hm. reflexivity.
Qed.

Lemma build_ignores_h sv tv sl tl d N h h' p d_ff :
  N <= 0 -> build_transformer sv tv sl tl d N h p d_ff = build_transformer sv tv sl tl d N h' p d_ff.
Proof.
  intros HN. unfold build_transformer. replace (Z.to_nat N) with 0%nat by lia. reflexivity.
Qed.

Lemma build_succeeds sv tv sl tl d N h p d_ff :
  1 <= d -> (Z.even d = true \/ d = 1) -> h <> 0 -> d mod h = 0 ->
  0 <= sv -> 0 <= tv -> 0 <= sl -> 0 <= tl -> 0 <= d_ff -> (0 <= p <= 1)%Q ->
  build_transformer sv tv sl tl d N h p d_ff <> None.
Proof.
  intros Hd Hev Hh Hm Hsv Htv Hsl Htl Hff Hp.
  pose proof (dropout_new_valid p Hp) as Hq.
  destruct (mha_new d h p) as [sa|] eqn:Es;
    [|exfalso; apply (proj2 (mha_new_iff d h p ltac:(lia) Hh Hp) Hm Es)].
  assert (Hf : feed_forward_new d d_ff p
               = Some (mkFFB (mkLinear (mk [d_ff; d]) (mk [d_ff])) p
                             (mkLinear (mk [d; d_ff]) (mk [d])))).
  { unfold feed_forward_new. rewrite linear_new_some by lia. cbn [obind]. rewrite Hq.
    cbn [obind]. rewrite linear_new_some by lia. reflexivity. }
  destruct (encoder_blocks_new_some (Z.to_nat N) d h d_ff p sa _ p Es Hf Hq) as [ebs Eb].
  destruct (decoder_blocks_new_some (Z.to_nat N) d h d_ff p sa _ p Es Hf Hq) as [dbs Db].
  unfold build_transformer, input_embedding_new, positional_encoding_new.
  destruct (Z.ltb_spec sv 0), (Z.ltb_spec tv 0), (Z.ltb_spec d 0); try lia. cbn [orb obind].
  rewrite Hq. cbn [obind].
  destruct (Z.ltb_spec sl 0), (Z.ltb_spec tl 0); try lia. cbn [orb].
  destruct (Z.eqb_spec d 0); [lia|]. rewrite (pe_columns_even d Hev). cbn [obind].
  rewrite Eb. cbn [obind]. rewrite Db. cbn [obind]. rewrite linear_new_some by lia. cbn [obind].
  match goal with |- (if forallb xavier_ok ?l then _ else _) <> None =>
    replace (forallb xavier_ok l) with true; [discriminate|symmetry] end.
  apply forallb_forall. apply Forall_forall.
  unfold transformer_params. cbn [enc_layers encoder dec_layers decoder enc_norm dec_norm
    src_embed tgt_embed ie_embedding projection_layer proj].
  rewrite !Forall_app. repeat split.
  - apply Forall_flat_map_intro. eapply encoder_blocks_new_xavier; eauto.
  - repeat constructor.
  - apply Forall_flat_map_intro. eapply decoder_blocks_new_xavier; eauto.
  - repeat constructor.
  - repeat constructor; apply xavier_pair; lia.
  - eapply linear_new_xavier; [apply linear_new_some|]; lia.
Qed.

(** ** [PositionalEncoding.forward] on a tensor of any sequence length *)

Lemma pe_forward_unfold training pos B S L d :
  dims (pe pos) = [1; L; d] -> 0 <= S ->
  positional_encoding_forward training pos (mk [B; S; d]) tt
  = match broadcast [B; S; d] [1; Z.min S L; d] with
    | Some r => Some (mk r, tt) | None => None end.
Proof.
  intros Hp HS. unfold positional_encoding_forward, bind, lift. simpl.
  rewrite Hp. simpl. unfold pystop. destruct (Z.ltb_spec S 0); [lia|].
  destruct (broadcast _ _); [destruct training|]; reflexivity.
Qed.

End BuildFacts.

(** * The real-valued computations *)
Module NumericFacts.
Import Numeric.
Local Open Scope R_scope.

(** ** Sums, means and variances *)

Lemma sumR_cons a l : sumR (a :: l) = a + sumR l.
Proof. reflexivity. Qed.

Lemma sumR_map_shift_div (x : list R) (a c : R) :
  sumR (map (fun xi => (xi - a) / c) x) = (sumR x - INR (length x) * a) / c.
Proof.
  induction x as [|x0 x IH]; [cbn; unfold Rdiv; ring|].
  cbn [map length]. rewrite !sumR_cons, IH, S_INR. unfold Rdiv. ring.
Qed.

Lemma sumR_map_scale (f : R -> R) (x : list R) (k : R) :
  sumR (map (fun xi => f xi * k) x) = sumR (map f x) * k.
Proof.
  induction x as [|x0 x IH]; [cbn; ring|]. cbn [map]. rewrite !sumR_cons, IH. ring.
Qed.

Lemma sumR_squares_nonneg (f : R -> R) (x : list R) : 0 <= sumR (map (fun xi => f xi ^ 2) x).
Proof.
  induction x as [|x0 x IH]; [cbn; lra|]. cbn [map]. rewrite sumR_cons.
  pose proof (pow2_ge_0 (f x0)). lra.
Qed.

Lemma sum_minus_mean (x : list R) : (1 <= length x)%nat -> sumR x - INR (length x) * mean_vec x = 0.
Proof.
  intros Hn. unfold mean_vec. assert (0 < INR (length x)) by (apply lt_0_INR; lia).
  field. lra.
Qed.

Lemma sq_dev_nonneg x : 0 <= sq_dev x.
Proof. apply sumR_squares_nonneg. Qed.

Lemma std_vec_sq x : (2 <= length x)%nat -> std_vec x ^ 2 = sq_dev x / INR (length x - 1).
Proof.
  intros Hn. unfold std_vec. rewrite <- Rsqr_pow2. apply Rsqr_sqrt.
  assert (0 < INR (length x - 1)) by (apply lt_0_INR; lia).
  pose proof (sq_dev_nonneg x). unfold Rdiv.
  apply Rmult_le_pos; [assumption | left; apply Rinv_0_lt_compat; assumption].
Qed.

(** The normalized values before the scale: [(x - mean) / (std + eps)]. *)
Lemma unscale_layer_norm alpha bias eps x :
  alpha <> 0 ->
  unscale alpha bias (layer_norm_vec alpha bias eps x)
  = map (fun xi => (xi - mean_vec x) / (std_vec x + eps)) x.
Proof.
  intros Ha. unfold unscale, layer_norm_vec. rewrite map_map. apply map_ext. intros xi.
  unfold Rdiv. set (y := (xi - mean_vec x) * / (std_vec x + eps)).
  replace (alpha * (xi - mean_vec x) * / (std_vec x + eps) + bias - bias) with (alpha * y)
    by (unfold y; ring).
  field. exact Ha.
Qed.

Lemma std_vec_nonneg x : 0 <= std_vec x.
Proof. apply sqrt_pos. Qed.

Lemma length_unscale alpha bias eps x :
  length (unscale alpha bias (layer_norm_vec alpha bias eps x)) = length x.
Proof. unfold unscale, layer_norm_vec. rewrite !length_map. reflexivity. Qed.

(** Mean and unbiased variance of [(x - mean) / c]. *)
Lemma normalized_mean x c : (1 <= length x)%nat ->
  mean_vec (map (fun xi => (xi - mean_vec x) / c) x) = 0.
Proof.
  intros Hn. unfold mean_vec at 1. rewrite sumR_map_shift_div, sum_minus_mean by assumption.
  unfold Rdiv. ring.
Qed.

Lemma normalized_var x c : (2 <= length x)%nat -> 0 < c ->
  var_unbiased (map (fun xi => (xi - mean_vec x) / c) x) = std_vec x ^ 2 / c ^ 2.
Proof.
  intros Hn Hc. unfold var_unbiased, sq_dev at 1. rewrite normalized_mean by lia.
  rewrite map_map, length_map, std_vec_sq by assumption.
  rewrite (map_ext (fun xi => ((xi - mean_vec x) / c - 0) ^ 2)
                   (fun xi => (xi - mean_vec x) ^ 2 * / c ^ 2))
    by (intros xi; field; lra).
  rewrite sumR_map_scale. fold (sq_dev x).
  assert (0 < INR (length x - 1)) by (apply lt_0_INR; lia).
  field. split; lra.
Qed.

Lemma std_vec_example : std_vec [-1; 0; 1] = 1.
Proof.
  unfold std_vec, sq_dev, mean_vec. cbn [map length sumR fold_right Nat.sub].
  replace (INR 3) with 3 by (simpl; ring). replace (INR 2) with 2 by (simpl; ring).
  match goal with |- sqrt ?a = 1 => replace a with 1 by field end.
  exact sqrt_1.
Qed.

(** ** [log_softmax] *)

Lemma sumR_map_div (f : R -> R) (v : list R) (k : R) :
  sumR (map (fun vi => f vi / k) v) = sumR (map f v) / k.
Proof.
  induction v as [|v0 v IH]; [cbn; unfold Rdiv; ring|]. cbn [map]. rewrite !sumR_cons, IH.
  unfold Rdiv. ring.
Qed.

Lemma sumR_exp_pos (f : R -> R) (v : list R) : v <> [] -> 0 < sumR (map (fun vi => exp (f vi)) v).
Proof.
  induction v as [|v0 v IH]; [contradiction|]. intros _. cbn [map]. rewrite sumR_cons.
  pose proof (exp_pos (f v0)).
  destruct v as [|v1 v]; [cbn; lra|]. assert (0 < sumR (map (fun vi => exp (f vi)) (v1 :: v)))
    by (apply IH; discriminate). lra.
Qed.

Lemma log_softmax_exp_sum v : v <> [] -> sumR (map exp (log_softmax_vec v)) = 1.
Proof.
  intros Hv. unfold log_softmax_vec. rewrite map_map.
  set (m := max_vec v). set (S := sumR (map (fun vi => exp (vi - m)) v)).
  assert (HS : 0 < S) by (apply (sumR_exp_pos (fun vi => vi - m)); exact Hv).
  rewrite (map_ext (fun vi => exp (vi - m - ln S)) (fun vi => exp (vi - m) / S)).
  - rewrite sumR_map_div. fold S. field. lra.
  - intros vi. unfold Rminus at 1. rewrite exp_plus, exp_Ropp, exp_ln by exact HS.
    unfold Rdiv. reflexivity.
Qed.

Lemma length_linear_vec W b x : length (linear_vec W b x) = Nat.min (length W) (length b).
Proof. unfold linear_vec. rewrite length_map, length_combine. reflexivity. Qed.

(** ** The first row of the positional-encoding table *)

Lemma repeat_entry {A} (a x : A) m : In x (repeat a m) -> x = a.
Proof. exact (repeat_spec m a x). Qed.

Lemma nth_repeat_same {A} (a : A) m c : nth c (repeat a m) a = a.
Proof.
  destruct (nth_in_or_default c (repeat a m) a) as [Hin|Hd]; [|exact Hd].
  exact (repeat_entry a _ m Hin).
Qed.

Lemma sin_row_0 d n : sin_row d n 0 = repeat 0 n.
Proof.
  unfold sin_row. rewrite <- (length_seq n 0) at 2. rewrite <- map_const.
  apply map_ext. intros j. simpl INR. rewrite Rmult_0_l. exact sin_0.
Qed.

Lemma cos_row_0 d n : cos_row d n 0 = repeat 1 n.
Proof.
  unfold cos_row. rewrite <- (length_seq n 0) at 2. rewrite <- map_const.
  apply map_ext. intros j. simpl INR. rewrite Rmult_0_l. exact cos_0.
Qed.

(** Assigning zeros to a row of zeros leaves it unchanged. *)
Lemma assign_stride_zeros D start n :
  assign_stride (repeat 0 D) start (repeat 0 n) = repeat 0 D.
Proof.
  unfold assign_stride.
  transitivity (map (fun _ : nat => 0) (seq 0 (length (repeat 0 D))));
    [|now rewrite map_const, length_seq, repeat_length].
  apply map_ext. intros c.
  destruct (_ && _)%bool; [|apply nth_repeat_same].
  destruct (nth_error (repeat 0 n) _) as [v|] eqn:E; [|apply nth_repeat_same].
  exact (repeat_entry 0 v n (nth_error_In _ _ E)).
Qed.

Lemma pe_row_0 d n : pe_row d n 0 = assign_stride (repeat 0 (Z.to_nat d)) 1 (repeat 1 n).
Proof. unfold pe_row. rewrite sin_row_0, cos_row_0, assign_stride_zeros. reflexivity. Qed.

End NumericFacts.

(** * The claims of the specification *)
(** ** Forward graph, shapes and construction *)
Module Claims.
Import Views GraphFacts Shape Construction ShapeFacts BuildFacts.

Section Generic.
Context {T F Rng : Type} `{Tensor T F Rng}.

(** C2: when [F.dropout] draws a tensor of the shape of its input and
    [sub] accepts two tensors of one shape, the pair returned by
    [MultiHeadAttentionBlock.attention] (output, attention scores) with a
    dropout module, in training or evaluation mode, is the pair returned
    without one. *)
Theorem attention_dropout_no_effect
  (Hdrop : forall p x g, exists y g', dropout_train p x g = Some (y, g') /\ shape y = shape x)
  (Hsub : forall a b, shape a = shape b -> sub a b <> None) :
  forall query key value mask p training (g : Rng),
    option_map fst (attention query key value mask (Some (p, training)) g)
    = option_map fst (attention query key value mask None g).
Proof.
  intros query key value mask p training g.
  unfold attention, bind, lift, ret.
  destruct (dim (-1) query) as [dk|]; [|reflexivity].
  destruct (transpose (-2) (-1) key) as [kt|]; [|reflexivity].
  destruct (matmul query kt) as [s0|]; [|reflexivity].
  destruct (f_sqrt dk) as [r|]; [|reflexivity].
  destruct (div_f s0 r) as [s1|]; [|reflexivity].
  destruct (match mask with Some m => masked_fill_eq0 m s1 | None => Some s1 end)
    as [s2|]; [|reflexivity].
  destruct (softmax_last s2) as [s|]; [|reflexivity].
  unfold dropout, ret. destruct training.
  - destruct (Hdrop p s g) as (y & g' & Ed & Es). rewrite Ed.
    destruct (sub s y) eqn:Esub; [|exfalso; apply (Hsub s y); auto].
    destruct (matmul s value); reflexivity.
  - destruct (sub s s) eqn:Esub; [|exfalso; apply (Hsub s s); auto].
    destruct (matmul s value); reflexivity.
Qed.

(** C6: [ResidualConnection.forward] computes [x + dropout(sublayer(norm(x)))]:
    the same function, random state and sublayer state included, as the
    pre-normalization residual written from the spec's words. *)
Theorem residual_forward_prenorm {S : Type} training rc x
  (sublayer : T -> S -> M Rng (T * S)) s (g : Rng) :
  residual_forward training rc x sublayer s g
  = prenorm_residual (layer_norm_forward (res_norm rc)) (dropout (res_dropout rc) training)
                     sublayer x s g.
Proof.
  unfold residual_forward, prenorm_residual, bind, lift, ret.
  destruct (layer_norm_forward (res_norm rc) x) as [n|]; [|reflexivity].
  destruct (sublayer n s g) as [[[y s'] g']|]; reflexivity.
Qed.

(** C7 (amended): a forward call writes the attribute [attention_scores] of
    every attention block it runs and nothing else: [MultiHeadAttentionBlock.forward]
    returns the block with its parameters, buffers and hyperparameters
    unchanged and [attention_scores] set; after [encode] or [decode] the model
    equals the model before the call once every [attention_scores] is
    erased. *)
Theorem forward_writes_only_attention_scores :
  (forall training m q k v mask (g : Rng) o m' g',
     mha_forward training m q k v mask g = Some ((o, m'), g') ->
     mha_erase m' = mha_erase m /\ exists s, attention_scores m' = Some s) /\
  (forall training m src mask (g : Rng) y m' g',
     encode training m src mask g = Some ((y, m'), g') -> erase m' = erase m) /\
  (forall training m eo sm tgt tm (g : Rng) y m' g',
     decode training m eo sm tgt tm g = Some ((y, m'), g') -> erase m' = erase m).
Proof.
  split; [|split].
  - apply mha_forward_state.
  - apply encode_state.
  - apply decode_state.
Qed.

(** C9: in evaluation mode, for the model built with [d_model = 8], [h = 2]
    and [src_seq_len = 4], [encode] on a batch of one sequence of 4 tokens
    returns a tensor of shape [(1, 4, 8)], and a second call, on the model the
    first one left, returns the same output; and for every tensor library,
    two calls on models with the same parameters and on the same input
    return the same output, whatever the random state. *)
Theorem encode_eval_deterministic :
  (forall sv tv tl N p d_ff m src mask,
     build_transformer sv tv 4 tl 8 N 2 p d_ff = Some m ->
     tokens_ok src 1 4 sv -> mask_ok mask 1 2 4 ->
     exists m', encode false m src mask tt = Some ((mk [1; 4; 8], m'), tt) /\
                option_map (fun r => fst (fst r)) (encode false m' src mask tt)
                = Some (mk [1; 4; 8])) /\
  (forall m1 m2 src mask (g1 g2 : Rng), erase m1 = erase m2 ->
     option_map (fun r => fst (fst r)) (encode false m1 src mask g1)
     = option_map (fun r => fst (fst r)) (encode false m2 src mask g2)).
Proof.
  split.
  - intros sv tv tl N p d_ff m src mask Hb Ht Hm.
    destruct (encode_shape false sv tv 4 tl 8 N 2 p d_ff m src mask 1 4 Hb) as [m' E];
      auto; try lia.
    exists m'. split; [exact E|].
    rewrite (encode_eval_outputs m' m src mask tt tt (encode_state false m src mask tt _ m' tt E)).
    rewrite E. reflexivity.
  - apply encode_eval_outputs.
Qed.

End Generic.

Lemma attention_dropout_no_effect_witness :
  option_map fst (attention (mk [1; 2; 4; 4]) (mk [1; 2; 4; 4]) (mk [1; 2; 4; 4]) None
                            (Some (1 # 10, true)) tt)
  = option_map fst (attention (mk [1; 2; 4; 4]) (mk [1; 2; 4; 4]) (mk [1; 2; 4; 4]) None None tt).
Proof.
  apply attention_dropout_no_effect.
  - intros p x g. exists (mk (dims x)), g. split; reflexivity.
  - intros a b E. simpl in E |- *. rewrite E, broadcast_same. discriminate.
Defined.

(** The attention scores of the single encoder block before and after a
    call of [encode]. *)
Lemma encode_sets_attention_scores :
  match build_transformer 10 10 4 4 8 1 2 (1 # 10) 16 with
  | Some m =>
      encoder_scores m = [None] /\
      match encode false m (mkSh [1; 4] [1; 2; 3; 4]) None tt with
      | Some ((_, m'), _) => encoder_scores m' = [Some (mk [1; 2; 4; 4])]
      | None => False
      end
  | None => False
  end.
Proof. vm_compute. split; reflexivity. Qed.

Lemma forward_writes_only_attention_scores_witness :
  match build_transformer 10 10 4 4 8 1 2 (1 # 10) 16 with
  | Some m =>
      match encode false m (mkSh [1; 4] [1; 2; 3; 4]) None tt with
      | Some ((y, m'), g') => erase m' = erase m
      | None => False
      end
  | None => False
  end.
Proof.
  destruct (build_transformer 10 10 4 4 8 1 2 (1 # 10) 16) as [m|] eqn:Eb;
    [|vm_compute in Eb; discriminate].
  destruct (encode false m (mkSh [1; 4] [1; 2; 3; 4]) None tt) as [[[y m'] g']|] eqn:Ee.
  - exact (proj1 (proj2 (forward_writes_only_attention_scores (T:=Sh) (F:=Q) (Rng:=unit)))
             false m (mkSh [1; 4] [1; 2; 3; 4]) None tt y m' g' Ee).
  - vm_compute in Eb. injection Eb as <-. vm_compute in Ee. discriminate.
Defined.

Lemma encode_eval_deterministic_witness :
  exists m,
    build_transformer 10 10 4 4 8 1 2 (1 # 10) 16 = Some m /\
    exists m', encode false m (mkSh [1; 4] [1; 2; 3; 4]) None tt
               = Some ((mk [1; 4; 8], m'), tt) /\
               option_map (fun r => fst (fst r)) (encode false m' (mkSh [1; 4] [1; 2; 3; 4]) None tt)
               = Some (mk [1; 4; 8]).
Proof.
  eexists. split; [reflexivity|].
  apply (proj1 (encode_eval_deterministic (T:=Sh) (F:=Q) (Rng:=unit)) 10 10 4 1 (1 # 10) 16).
  - reflexivity.
  - split; reflexivity.
  - exact I.
Defined.

(** C1 (amended): for [h <> 0] and a dropout rate in [0, 1],
    [MultiHeadAttentionBlock(d_model, h)] with [d_model >= 0] is built iff
    [d_model % h == 0]; with at least one layer, [build_transformer] fails
    when [h = 0] or [d_model % h != 0]; when [d_model % h == 0] it succeeds
    for [d_model >= 1] even or equal to 1 and nonnegative sizes; with
    [N <= 0] its result does not depend on [h]. *)
Theorem construction_divisibility :
  (forall d h p, 0 <= d -> h <> 0 -> (0 <= p <= 1)%Q ->
     mha_new d h p <> None <-> d mod h = 0) /\
  (forall sv tv sl tl d N h p d_ff, 1 <= N -> (h = 0 \/ d mod h <> 0) ->
     build_transformer sv tv sl tl d N h p d_ff = None) /\
  (forall sv tv sl tl d N h p d_ff,
     1 <= d -> (Z.even d = true \/ d = 1) -> h <> 0 -> d mod h = 0 ->
     0 <= sv -> 0 <= tv -> 0 <= sl -> 0 <= tl -> 0 <= d_ff -> (0 <= p <= 1)%Q ->
     build_transformer sv tv sl tl d N h p d_ff <> None) /\
  (forall sv tv sl tl d N h h' p d_ff, N <= 0 ->
     build_transformer sv tv sl tl d N h p d_ff = build_transformer sv tv sl tl d N h' p d_ff).
Proof.
  split; [|split; [|split]].
  - apply mha_new_iff.
  - apply build_fails_divisibility.
  - apply build_succeeds.
  - apply build_ignores_h.
Qed.

Lemma construction_divisibility_witness :
  (mha_new 8 2 (1 # 10) <> None <-> 8 mod 2 = 0) /\
  build_transformer 10 10 4 4 8 1 3 (1 # 10) 16 = None /\
  build_transformer 10 10 4 4 8 1 2 (1 # 10) 16 <> None /\
  build_transformer 10 10 4 4 8 0 3 (1 # 10) 16 = build_transformer 10 10 4 4 8 0 2 (1 # 10) 16.
Proof.
  destruct construction_divisibility as (Ha & Hb & Hc & Hd).
  split; [apply Ha; [lia | lia | split; unfold Qle; simpl; lia]|].
  split; [apply Hb; [lia | right; vm_compute; discriminate]|].
  split; [apply Hc; [lia | left; reflexivity | lia | reflexivity | lia | lia | lia | lia | lia |
                     split; unfold Qle; simpl; lia]|].
  apply Hd. lia.
Defined.

(** [d_model = 3], [h = 1] fails (the odd columns of [pe] take 2 values for
    1 place), and [d_model = 8], [h = 3], [N = 0] succeeds. *)
Lemma construction_counterexamples :
  (3 mod 1 = 0 /\ build_transformer 10 10 4 4 3 1 1 (1 # 10) 16 = None) /\
  (8 mod 3 <> 0 /\ build_transformer 10 10 4 4 8 0 3 (1 # 10) 16 <> None).
Proof.
  split; split; try reflexivity; vm_compute; discriminate.
Qed.




(** C10 (amended): for [x] of shape [(B, S, d_model)], [PositionalEncoding.forward]
    returns a tensor of that shape when [0 <= S <= seq_len]; when
    [S > seq_len] it fails unless [seq_len = 1] (the single row of [pe] is
    broadcast along the sequence, and the shape is kept) or [S = 1] with
    [seq_len = 0] (the output has sequence length 0). *)
Theorem pe_forward_seq_len d L p pos :
  positional_encoding_new d L p = Some pos ->
  (forall training B S, 0 <= S <= L ->
     positional_encoding_forward training pos (mk [B; S; d]) tt = Some (mk [B; S; d], tt)) /\
  (forall training B S, L < S -> L <> 1 -> S <> 1 ->
     positional_encoding_forward training pos (mk [B; S; d]) tt = None) /\
  (forall training B S, L = 1 -> 0 <= S ->
     positional_encoding_forward training pos (mk [B; S; d]) tt = Some (mk [B; S; d], tt)) /\
  (forall training B, L = 0 ->
     positional_encoding_forward training pos (mk [B; 1; d]) tt = Some (mk [B; 0; d], tt)).
Proof.
  intros Hnew. destruct (positional_encoding_new_wf d L p pos Hnew) as (Hp & _ & _ & HL & Hd).
  split; [|split; [|split]].
  - intros training B S HS. apply (pe_forward_shape training pos B S L d Hp HS).
  - intros training B S HLS H1 H2. rewrite (pe_forward_unfold training pos B S L d Hp) by lia.
    rewrite Z.min_r by lia. unfold broadcast. simpl. rewrite bdim_refl.
    unfold bdim. rewrite (proj2 (Z.eqb_neq S L)), (proj2 (Z.eqb_neq S 1)), (proj2 (Z.eqb_neq L 1))
      by lia. reflexivity.
  - intros training B S -> HS. rewrite (pe_forward_unfold training pos B S 1 d Hp HS).
    destruct (Z.eqb_spec S 0) as [->|HS0].
    + rewrite broadcast_batch. reflexivity.
    + rewrite Z.min_r by lia. unfold broadcast. simpl. rewrite bdim_refl, !bdim_1_r. reflexivity.
  - intros training B ->. rewrite (pe_forward_unfold training pos B 1 0 d Hp) by lia.
    simpl. unfold broadcast. simpl. rewrite bdim_refl, bdim_1_r.
    reflexivity.
Qed.

Lemma pe_forward_seq_len_witness :
  positional_encoding_new 8 4 (1 # 10) = Some (mkPositionalEncoding 8 4 (1 # 10) (mk [1; 4; 8])) /\
  positional_encoding_forward false (mkPositionalEncoding 8 4 (1 # 10) (mk [1; 4; 8])) (mk [2; 6; 8]) tt
  = None.
Proof.
  split; [reflexivity|].
  apply (proj1 (proj2 (pe_forward_seq_len 8 4 (1 # 10) _ eq_refl))); lia.
Defined.

(** A table of one row is broadcast to a sequence of 3 positions. *)
Lemma pe_forward_broadcast_row :
  match positional_encoding_new 8 1 (1 # 10) with
  | Some pos => positional_encoding_forward false pos (mk [2; 3; 8]) tt = Some (mk [2; 3; 8], tt)
  | None => False
  end.
Proof. vm_compute. reflexivity. Qed.

End Claims.

(** ** Real-valued computations *)
Module NumericClaims.
Import Numeric NumericFacts.
Local Open Scope R_scope.

(** C4 (amended): on a vector [x] of the last dimension with at least two
    entries, [alpha <> 0] and [eps > 0], the values [(out - bias) / alpha]
    have mean 0 and unbiased variance [std^2 / (std + eps)^2 < 1], where
    [std] is the unbiased standard deviation of [x] ([x.std(dim=-1)]). *)
Theorem layer_norm_normalized alpha bias eps x :
  (2 <= length x)%nat -> alpha <> 0 -> 0 < eps ->
  let z := unscale alpha bias (layer_norm_vec alpha bias eps x) in
  mean_vec z = 0 /\ var_unbiased z = std_vec x ^ 2 / (std_vec x + eps) ^ 2 /\ var_unbiased z < 1.
Proof.
  intros Hn Ha He z. subst z. rewrite unscale_layer_norm by exact Ha.
  pose proof (std_vec_nonneg x) as Hs.
  rewrite normalized_mean by lia. rewrite normalized_var by (auto; lra).
  split; [reflexivity|]. split; [reflexivity|].
  set (s := std_vec x) in *. set (r := s ^ 2 / (s + eps) ^ 2).
  assert (Hr : r * (s + eps) ^ 2 = s ^ 2) by (unfold r; field; lra).
  assert (Hc : 0 < (s + eps) ^ 2) by (apply pow_lt; lra).
  assert (Hlt : s ^ 2 < (s + eps) ^ 2) by (simpl; nra).
  destruct (Rlt_or_le r 1) as [|Hge]; [assumption|]. exfalso.
  assert (r * (s + eps) ^ 2 >= 1 * (s + eps) ^ 2) by (apply Rmult_ge_compat_r; lra).
  lra.
Qed.

Lemma layer_norm_normalized_witness :
  let z := unscale 2 1 (layer_norm_vec 2 1 (/ 1000000) [-1; 0; 1]) in
  mean_vec z = 0 /\
  var_unbiased z = std_vec [-1; 0; 1] ^ 2 / (std_vec [-1; 0; 1] + / 1000000) ^ 2 /\
  var_unbiased z < 1.
Proof.
  apply layer_norm_normalized; [simpl; lia | lra | lra].
Defined.

(** On [x = [-1, 0, 1]] (unbiased standard deviation 1), with [alpha = 1],
    [bias = 0] and [eps = 1e-6], neither variance of the normalized values is 1. *)
Lemma layer_norm_counterexample :
  let z := unscale 1 0 (layer_norm_vec 1 0 (/ 1000000) [-1; 0; 1]) in
  var_pop z <> 1 /\ var_unbiased z <> 1.
Proof.
  intros z.
  assert (Hu : var_unbiased z = 1 / (1 + / 1000000) ^ 2).
  { subst z. rewrite unscale_layer_norm by lra. rewrite normalized_var, std_vec_example;
      [field; lra | cbn; lia | rewrite std_vec_example; lra]. }
  assert (Hp : var_pop z = var_unbiased z * 2 / 3).
  { subst z. unfold var_pop, var_unbiased. rewrite (length_unscale 1 0 (/ 1000000) [-1; 0; 1]).
    cbn [length Nat.sub]. replace (INR 3) with 3 by (simpl; ring).
    replace (INR 2) with 2 by (simpl; ring). field. }
  rewrite Hp, Hu. split; intros C; field_simplify in C; lra.
Qed.

(** C5 (amended): at every position, for a vocabulary of at least one entry
    ([weight] of [V >= 1] rows and [bias] of [V] entries), the exponentials of
    [ProjectionLayer.forward] (in exact arithmetic) sum to 1. *)
Theorem project_exp_sums_to_one W b x :
  length b = length W -> (1 <= length W)%nat -> sumR (map exp (project_vec W b x)) = 1.
Proof.
  intros Hb Hn. unfold project_vec. apply log_softmax_exp_sum.
  intros E. apply (f_equal (@length R)) in E. rewrite length_linear_vec in E. cbn in E. lia.
Qed.

Lemma project_exp_sums_to_one_witness : sumR (map exp (project_vec [[1]] [0] [0])) = 1.
Proof. apply project_exp_sums_to_one; simpl; lia. Defined.

(** With [tgt_vocab_size = 0] the projection has no output, and the sum is 0. *)
Lemma project_empty_vocab : sumR (map exp (project_vec [] [] [1])) <> 1.
Proof. change (sumR (map exp (project_vec [] [] [1]))) with 0. lra. Qed.

(** C8: every entry of row 0 of the table [pe] built by
    [PositionalEncoding.__init__] is 0 at an even column and 1 at an odd
    column. *)
Theorem pe_position0 L d i v :
  pe_get L d 0 i = Some v -> v = if Nat.even i then 0 else 1.
Proof.
  unfold pe_get, pe_table.
  destruct ((L <? 0)%Z || (d <? 0)%Z)%bool; [discriminate|].
  destruct (d =? 0)%Z; [discriminate|].
  set (D := Z.to_nat d). set (n := ((D + 1) / 2)%nat).
  destruct (bcast_ok n (stride_count D 0) && bcast_ok n (stride_count D 1))%bool; [|discriminate].
  cbn [obind nth_error]. destruct (Z.to_nat L) as [|L']; [discriminate|].
  cbn [seq map obind].
  rewrite pe_row_0. fold D. unfold assign_stride.
  rewrite nth_error_map, nth_error_seq, !repeat_length.
  destruct (i <? D)%nat eqn:Hi; [|discriminate]. apply Nat.ltb_lt in Hi.
  cbn [option_map]. intros E. injection E as <-.
  destruct i as [|i']; [cbn [Nat.even andb]; apply nth_repeat_same|].
  rewrite Nat.even_succ, <- Nat.negb_even. simpl Nat.add. replace (S i' - 1)%nat with i' by lia.
  destruct (Nat.even i') eqn:Ev; cbn [negb andb Nat.leb].
  - pose proof (Nat.div_mod (D + 1) 2 ltac:(lia)) as Hdm.
    pose proof (Nat.mod_upper_bound (D + 1) 2 ltac:(lia)) as Hmb. fold n in Hdm.
    rewrite nth_error_repeat; [reflexivity|].
    destruct (n =? 1)%nat; [lia|].
    apply Nat.even_spec in Ev as [q ->].
    change (fst (Nat.divmod (2 * q) 1 0 1)) with ((2 * q) / 2)%nat.
    rewrite Nat.mul_comm, Nat.div_mul by lia. lia.
  - apply nth_repeat_same.
Qed.

Lemma pe_position0_witness : exists v, pe_get 2 4 0 1 = Some v /\ v = 1.
Proof.
  eexists. split; [reflexivity|].
  apply (pe_position0 2 4 1). reflexivity.
Defined.

End NumericClaims.

(** * Further properties of the forward graph and the construction *)
Module ExtraFacts.
Import Views GraphFacts Shape Construction ShapeFacts BuildFacts.

(** ** Attention of [T] queries over [S] keys *)

Lemma matmul_scores_qk B h T S dk : matmul_shape [B; h; T; dk] [B; h; dk; S] = Some [B; h; T; S].
Proof. unfold matmul_shape. simpl. rewrite Z.eqb_refl. simpl. rewrite !bdim_refl. reflexivity. Qed.

Lemma matmul_values_qk B h T S dk : matmul_shape [B; h; T; S] [B; h; S; dk] = Some [B; h; T; dk].
Proof. unfold matmul_shape. simpl. rewrite Z.eqb_refl. simpl. rewrite !bdim_refl. reflexivity. Qed.

Lemma attention_shape_qk q k v mask p training B h T S dk :
  1 <= dk -> dims q = [B; h; T; dk] -> dims k = [B; h; S; dk] -> dims v = [B; h; S; dk] ->
  mask_ok_qk mask B h T S ->
  attention q k v mask (Some (p, training)) tt
  = Some ((mk [B; h; T; dk], mk [B; h; T; S]), tt).
Proof.
  intros Hd Hq Hk Hv Hm. unfold attention, bind, lift, ret. unfold dim. simpl.
  rewrite Hq, Hk. simpl. change (list_swap [B; h; S; dk] _ _) with [B; h; dk; S].
  rewrite matmul_scores_qk. simpl.
  replace (dk <? 0) with false by lia.
  destruct mask as [m|]; simpl in Hm |- *; [rewrite Hm|]; simpl;
    (destruct training; simpl; rewrite broadcast_same; simpl; rewrite Hv, matmul_values_qk;
     reflexivity).
Qed.

Lemma mha_shape_qk training m x kv mask B T S h dk :
  mha_wf (h * dk) h dk m -> dims x = [B; T; h * dk] -> dims kv = [B; S; h * dk] ->
  1 <= B -> 0 <= T -> 0 <= S -> 1 <= h -> 1 <= dk -> mask_ok_qk mask B h T S ->
  exists m', mha_forward training m x kv kv mask tt = Some ((mk [B; T; h * dk], m'), tt) /\
             attention_scores m' = Some (mk [B; h; T; S]).
Proof.
  intros (Hh & Hdk & Hq & Hk & Hv & Ho) Hx Hkv HB HT HS H1 H2 Hm.
  unfold mha_forward, bind, lift, ret.
  rewrite (linear_forward_shape _ _ _ _ _ _ Hq Hx), (linear_forward_shape _ _ _ _ _ _ Hk Hkv),
          (linear_forward_shape _ _ _ _ _ _ Hv Hkv).
  rewrite Hh, Hdk, (split_heads_shape (mk [B; T; h * dk]) B T h dk) by (auto; reflexivity).
  rewrite !(split_heads_shape (mk [B; S; h * dk]) B S h dk) by (auto; reflexivity).
  rewrite (attention_shape_qk _ _ _ _ _ _ B h T S dk) by (auto; reflexivity).
  rewrite (merge_heads_shape (mk [B; h; T; dk]) B T h dk) by (auto; reflexivity).
  rewrite (linear_forward_shape _ _ _ _ _ _ Ho) by reflexivity.
  eexists. split; reflexivity.
Qed.

(** ** The encoder, with the scores each layer stores *)

Lemma eb_shape_scores training b x mask B S h dk d_ff :
  eb_wf (h * dk) h dk d_ff b -> dims x = [B; S; h * dk] ->
  1 <= B -> 0 <= S -> 1 <= h -> 1 <= dk -> mask_ok mask B h S ->
  exists b', encoder_block_forward training b x mask tt = Some ((mk [B; S; h * dk], b'), tt) /\
             attention_scores (eb_self_attention_block b') = Some (mk [B; h; S; S]).
Proof.
  intros (Hm & Hf & r0 & r1 & Hrs & H0 & H1) Hx HB HS Hh Hd Hmask.
  destruct (mha_shape_qk training (eb_self_attention_block b) (mk [B; S; h * dk])
              (mk [B; S; h * dk]) mask B S S h dk) as (sa' & Hsa & Hsc); auto.
  unfold encoder_block_forward. rewrite Hrs.
  rewrite (bind_some _ _ tt r0 tt) by reflexivity.
  rewrite (bind_some _ _ tt (mk [B; S; h * dk], sa') tt)
    by (apply (residual_shape training r0 x _ _ sa' B S (h * dk) H0 Hx Hsa)).
  rewrite (bind_some _ _ tt r1 tt) by reflexivity.
  rewrite (bind_some _ _ tt (mk [B; S; h * dk], tt) tt).
  - eexists. split; [reflexivity | exact Hsc].
  - apply (residual_shape training r1 (mk [B; S; h * dk]) _ tt tt B S (h * dk) H1 eq_refl).
    unfold stateless. rewrite (bind_some _ _ tt (mk [B; S; h * dk]) tt).
    + reflexivity.
    + apply (ffb_shape training _ (mk [B; S; h * dk]) B S (h * dk) d_ff Hf eq_refl).
Qed.

Lemma enc_layers_scores training ls mask B S h dk d_ff :
  Forall (eb_wf (h * dk) h dk d_ff) ls ->
  1 <= B -> 0 <= S -> 1 <= h -> 1 <= dk -> mask_ok mask B h S ->
  exists ls', encoder_layers_forward training ls (mk [B; S; h * dk]) mask tt
              = Some ((mk [B; S; h * dk], ls'), tt) /\ length ls' = length ls /\
              Forall (fun b => attention_scores (eb_self_attention_block b) = Some (mk [B; h; S; S]))
                     ls'.
Proof.
  intros Hall HB HS Hh Hd Hmask. induction Hall as [|b ls Hb Hall IH].
  - exists []. split; [reflexivity | auto].
  - destruct (eb_shape_scores training b (mk [B; S; h * dk]) mask B S h dk d_ff)
      as (b' & Eb & Hsb); auto.
    destruct IH as (ls' & Els & Hl & Hs). simpl.
    rewrite (bind_some _ _ tt (mk [B; S; h * dk], b') tt Eb).
    rewrite (bind_some _ _ tt (mk [B; S; h * dk], ls') tt Els).
    exists (b' :: ls'). split; [reflexivity|]. split; [simpl; congruence | constructor; auto].
Qed.

(** ** The decoder *)

Lemma db_shape training b x eo sm tm B T S h dk d_ff :
  db_wf (h * dk) h dk d_ff b -> dims x = [B; T; h * dk] -> dims eo = [B; S; h * dk] ->
  1 <= B -> 0 <= T -> 0 <= S -> 1 <= h -> 1 <= dk ->
  mask_ok_qk tm B h T T -> mask_ok_qk sm B h T S ->
  exists b', decoder_block_forward training b x eo sm tm tt = Some ((mk [B; T; h * dk], b'), tt).
Proof.
  intros (Hsa & Hca & Hf & r0 & r1 & r2 & Hrs & H0 & H1 & H2) Hx Heo HB HT HS Hh Hd Htm Hsm.
  destruct (mha_shape_qk training (db_self_attention_block b) (mk [B; T; h * dk])
              (mk [B; T; h * dk]) tm B T T h dk) as (sa' & Esa & _); auto.
  destruct (mha_shape_qk training (db_cross_attention_block b) (mk [B; T; h * dk])
              eo sm B T S h dk) as (ca' & Eca & _); auto.
  unfold decoder_block_forward. rewrite Hrs.
  rewrite (bind_some _ _ tt r0 tt) by reflexivity.
  rewrite (bind_some _ _ tt (mk [B; T; h * dk], sa') tt)
    by (apply (residual_shape training r0 x _ _ sa' B T (h * dk) H0 Hx Esa)).
  rewrite (bind_some _ _ tt r1 tt) by reflexivity.
  rewrite (bind_some _ _ tt (mk [B; T; h * dk], ca') tt)
    by (apply (residual_shape training r1 (mk [B; T; h * dk]) _ _ ca' B T (h * dk) H1 eq_refl Eca)).
  rewrite (bind_some _ _ tt r2 tt) by reflexivity.
  rewrite (bind_some _ _ tt (mk [B; T; h * dk], tt) tt).
  - eexists. reflexivity.
  - apply (residual_shape training r2 (mk [B; T; h * dk]) _ tt tt B T (h * dk) H2 eq_refl).
    unfold stateless. rewrite (bind_some _ _ tt (mk [B; T; h * dk]) tt).
    + reflexivity.
    + apply (ffb_shape training _ (mk [B; T; h * dk]) B T (h * dk) d_ff Hf eq_refl).
Qed.

Lemma dec_layers_shape training ls eo sm tm B T S h dk d_ff :
  Forall (db_wf (h * dk) h dk d_ff) ls -> dims eo = [B; S; h * dk] ->
  1 <= B -> 0 <= T -> 0 <= S -> 1 <= h -> 1 <= dk ->
  mask_ok_qk tm B h T T -> mask_ok_qk sm B h T S ->
  exists ls', decoder_layers_forward training ls (mk [B; T; h * dk]) eo sm tm tt
              = Some ((mk [B; T; h * dk], ls'), tt).
Proof.
  intros Hall Heo HB HT HS Hh Hd Htm Hsm. induction Hall as [|b ls Hb Hall IH].
  - eexists. reflexivity.
  - destruct (db_shape training b (mk [B; T; h * dk]) eo sm tm B T S h dk d_ff) as [b' Eb]; auto.
    destruct IH as [ls' Els]. simpl.
    rewrite (bind_some _ _ tt (mk [B; T; h * dk], b') tt Eb).
    rewrite (bind_some _ _ tt (mk [B; T; h * dk], ls') tt Els).
    eexists. reflexivity.
Qed.

Lemma decoder_blocks_new_wf n d h d_ff p bs :
  decoder_blocks_new n d h d_ff p = Some bs ->
  Forall (db_wf d h (d / h) d_ff) bs /\ length bs = n /\ (bs = [] \/ (h <> 0 /\ d mod h = 0)).
Proof.
  revert bs. induction n as [|n IH]; intros bs; cbn [decoder_blocks_new].
  - intros E. injection E as <-. auto.
  - destruct (mha_new d h p) as [sa|] eqn:Es; [|discriminate]. cbn [obind].
    destruct (feed_forward_new d d_ff p) as [ff|] eqn:Ef; [|discriminate]. cbn [obind].
    destruct (residuals_new 3 p) as [rs|] eqn:Er; [|discriminate]. cbn [obind].
    destruct (decoder_blocks_new n d h d_ff p) as [bs'|]; [|discriminate]. cbn [obind].
    intros E. injection E as <-.
    destruct (IH bs' eq_refl) as (IHf & IHl & _).
    pose proof (mha_new_wf d h p sa Es) as (Hm & Hh & Hmod). apply ffb_new_wf in Ef.
    apply residuals_new_wf in Er as [Hl Hr].
    destruct rs as [|r0 [|r1 [|r2 [|]]]]; try discriminate.
    rewrite !Forall_cons_iff in Hr. destruct Hr as (H0 & H1 & H2 & _).
    split; [|split; [simpl; congruence | right; auto]]. constructor; [|exact IHf].
    split; [exact Hm|]. split; [exact Hm|]. split; [exact Ef|]. exists r0, r1, r2. auto.
Qed.

Lemma encoder_blocks_new_length n d h d_ff p bs :
  encoder_blocks_new n d h d_ff p = Some bs -> length bs = n.
Proof.
  revert bs. induction n as [|n IH]; intros bs; cbn [encoder_blocks_new].
  - intros E. injection E as <-. reflexivity.
  - destruct (mha_new d h p); [|discriminate]. cbn [obind].
    destruct (feed_forward_new d d_ff p); [|discriminate]. cbn [obind].
    destruct (residuals_new 2 p); [|discriminate]. cbn [obind].
    destruct (encoder_blocks_new n d h d_ff p) as [bs'|]; [|discriminate]. cbn [obind].
    intros E. injection E as <-. simpl. f_equal. apply IH. reflexivity.
Qed.

(** What [build_transformer] assembles. *)
Lemma build_inv sv tv sl tl d N h p d_ff m :
  build_transformer sv tv sl tl d N h p d_ff = Some m ->
  input_embedding_new d sv = Some (src_embed m) /\ input_embedding_new d tv = Some (tgt_embed m) /\
  positional_encoding_new d sl p = Some (src_pos m) /\
  positional_encoding_new d tl p = Some (tgt_pos m) /\
  encoder_blocks_new (Z.to_nat N) d h d_ff p = Some (enc_layers (encoder m)) /\
  decoder_blocks_new (Z.to_nat N) d h d_ff p = Some (dec_layers (decoder m)) /\
  linear_new d tv = Some (proj (projection_layer m)) /\
  enc_norm (encoder m) = layer_norm_new /\ dec_norm (decoder m) = layer_norm_new.
Proof.
  unfold build_transformer.
  destruct (input_embedding_new d sv) as [se|]; [|discriminate]. cbn [obind].
  destruct (input_embedding_new d tv) as [te|]; [|discriminate]. cbn [obind].
  destruct (positional_encoding_new d sl p) as [sp|]; [|discriminate]. cbn [obind].
  destruct (positional_encoding_new d tl p) as [tp|]; [|discriminate]. cbn [obind].
  destruct (encoder_blocks_new _ d h d_ff p) as [ebs|]; [|discriminate]. cbn [obind].
  destruct (decoder_blocks_new _ d h d_ff p) as [dbs|]; [|discriminate]. cbn [obind].
  destruct (linear_new d tv) as [pl|]; [|discriminate]. cbn [obind].
  destruct (forallb _ _); [|discriminate]. intros E. injection E as <-. cbn.
  repeat split; reflexivity.
Qed.

Lemma decoder_forward_shape training dd eo sm tm B T S h dk d_ff :
  Forall (db_wf (h * dk) h dk d_ff) (dec_layers dd) -> ln_wf (dec_norm dd) ->
  dims eo = [B; S; h * dk] ->
  1 <= B -> 0 <= T -> 0 <= S -> 1 <= h -> 1 <= dk ->
  mask_ok_qk tm B h T T -> mask_ok_qk sm B h T S ->
  exists dd', decoder_forward training dd (mk [B; T; h * dk]) eo sm tm tt
              = Some ((mk [B; T; h * dk], dd'), tt).
Proof.
  intros Hall Hn Heo HB HT HS Hh Hd Htm Hsm.
  destruct (dec_layers_shape training (dec_layers dd) eo sm tm B T S h dk d_ff) as [ls' E]; auto.
  unfold decoder_forward. rewrite (bind_some _ _ tt (mk [B; T; h * dk], ls') tt E).
  rewrite (bind_some _ _ tt (mk [B; T; h * dk]) tt).
  - eexists. reflexivity.
  - unfold lift. rewrite (ln_shape _ (mk [B; T; h * dk]) B T (h * dk) Hn eq_refl). reflexivity.
Qed.

Lemma map_Forall_repeat {A B} (f : A -> B) (c : B) l :
  Forall (fun x => f x = c) l -> map f l = repeat c (length l).
Proof. induction 1; simpl; congruence. Qed.

(** ** Token indices out of the vocabulary *)

Lemma forallb_range_false (V : Z) l :
  existsb (fun t => (t <? 0) || (V <=? t)) l = true ->
  forallb (fun t => (0 <=? t) && (t <? V)) l = false.
Proof.
  induction l as [|t l IH]; [discriminate|]. simpl. intros E.
  destruct (Z.ltb_spec t 0), (Z.leb_spec V t), (Z.leb_spec 0 t), (Z.ltb_spec t V);
    try lia; cbn [orb andb] in *; auto.
Qed.

Lemma embedding_rejects d V ie x :
  input_embedding_new d V = Some ie ->
  existsb (fun t => (t <? 0) || (V <=? t)) (ivals x) = true ->
  input_embedding_forward ie x = None.
Proof.
  intros Hie Hx. apply input_embedding_new_wf in Hie as (_ & He & _).
  unfold input_embedding_forward. cbn [embedding ShapeTensor]. rewrite He.
  unfold embedding_shape. rewrite (forallb_range_false V _ Hx). reflexivity.
Qed.

(** ** Counting the scalars of the parameters *)

Lemma fold_add_init (l : list Z) a : fold_right Z.add a l = fold_right Z.add 0 l + a.
Proof. induction l as [|x l IH]; simpl; lia. Qed.

Lemma numel_sum_app a b : numel_sum (a ++ b) = numel_sum a + numel_sum b.
Proof.
  unfold numel_sum. rewrite map_app, fold_right_app, fold_add_init. lia.
Qed.

Lemma numel_sum_flat_map {A} (f : A -> list (list Z)) l c :
  Forall (fun a => numel_sum (f a) = c) l -> numel_sum (flat_map f l) = Z.of_nat (length l) * c.
Proof.
  induction 1 as [|a l Ha Hl IH]; [reflexivity|].
  simpl flat_map. rewrite numel_sum_app, Ha, IH. simpl length. lia.
Qed.

Ltac dims_rewrite :=
  repeat match goal with
         | Hd : dims _ = _ |- _ => rewrite Hd in *; clear Hd
         end.

Lemma eb_numel d h dk d_ff b :
  eb_wf d h dk d_ff b ->
  numel_sum (mha_params (eb_self_attention_block b) ++ ffb_params (eb_feed_forward_block b)
             ++ residuals_params (eb_residual_connections b))
  = 4 * (d * d + d) + (d_ff * d + d_ff) + (d * d_ff + d) + 4.
Proof.
  intros ((_ & _ & [? ?] & [? ?] & [? ?] & [? ?]) & ([? ?] & [? ?]) & r0 & r1 & Hrs & [? ?] & [? ?]).
  unfold mha_params, ffb_params, residuals_params, linear_params, ln_params.
  rewrite Hrs. cbn [flat_map app]. dims_rewrite.
  unfold numel_sum, prod. cbn [map fold_right]. ring.
Qed.

Lemma db_numel d h dk d_ff b :
  db_wf d h dk d_ff b ->
  numel_sum (mha_params (db_self_attention_block b) ++ mha_params (db_cross_attention_block b)
             ++ ffb_params (db_feed_forward_block b)
             ++ residuals_params (db_residual_connection b))
  = 8 * (d * d + d) + (d_ff * d + d_ff) + (d * d_ff + d) + 6.
Proof.
  intros ((_ & _ & [? ?] & [? ?] & [? ?] & [? ?]) & (_ & _ & [? ?] & [? ?] & [? ?] & [? ?]) &
          ([? ?] & [? ?]) & r0 & r1 & r2 & Hrs & [? ?] & [? ?] & [? ?]).
  unfold mha_params, ffb_params, residuals_params, linear_params, ln_params.
  rewrite Hrs. cbn [flat_map app]. dims_rewrite.
  unfold numel_sum, prod. cbn [map fold_right]. ring.
Qed.

(** ** The constructors refuse *)

Lemma dropout_new_invalid p : ~ (0 <= p <= 1)%Q -> dropout_new p = None.
Proof.
  intros Hp. unfold dropout_new.
  destruct (Qle_bool 0 p) eqn:E1, (Qle_bool p 1) eqn:E2; try reflexivity.
  exfalso. apply Hp. split; apply Qle_bool_iff; assumption.
Qed.

Lemma pe_columns_odd d : Z.odd d = true -> 3 <= d -> pe_columns_ok d = false.
Proof.
  intros Ho Hd. apply Z.odd_spec in Ho as [k ->].
  assert (E1 : (2 * k + 1 + 1) / 2 = k + 1) by (Z.div_mod_to_equations; lia).
  assert (E2 : (2 * k + 1) / 2 = k) by (Z.div_mod_to_equations; lia).
  unfold pe_columns_ok. cbv zeta. rewrite E1, E2, Z.eqb_refl.
  rewrite (proj2 (Z.eqb_neq (k + 1) k)), (proj2 (Z.eqb_neq (k + 1) 1)) by lia. reflexivity.
Qed.

(** The construction fails as soon as one of its positional encodings does. *)
Lemma build_pe_fails sv tv sl tl d N h p d_ff :
  positional_encoding_new d sl p = None -> build_transformer sv tv sl tl d N h p d_ff = None.
Proof.
  intros Hp. unfold build_transformer.
  destruct (input_embedding_new d sv); [|reflexivity]. cbn [obind].
  destruct (input_embedding_new d tv); [|reflexivity]. cbn [obind].
  rewrite Hp. reflexivity.
Qed.

Lemma build_tgt_pe_fails sv tv sl tl d N h p d_ff :
  positional_encoding_new d tl p = None -> build_transformer sv tv sl tl d N h p d_ff = None.
Proof.
  intros Hp. unfold build_transformer.
  destruct (input_embedding_new d sv); [|reflexivity]. cbn [obind].
  destruct (input_embedding_new d tv); [|reflexivity]. cbn [obind].
  destruct (positional_encoding_new d sl p); [|reflexivity]. cbn [obind].
  rewrite Hp. reflexivity.
Qed.

(** ** [Transformer.decode] in evaluation mode *)
Section DecodeEval.
Context {T F Rng : Type} `{Tensor T F Rng}.

Lemma rf_db_eval b x eo sm tm : rng_free (decoder_block_forward (Rng:=Rng) false b x eo sm tm).
Proof. unfold decoder_block_forward. rf_chain. Qed.

Lemma rf_dec_layers_eval ls x eo sm tm :
  rng_free (decoder_layers_forward (Rng:=Rng) false ls x eo sm tm).
Proof.
  revert x. induction ls as [|l ls IH]; intros x; simpl; rf_chain.
Qed.

Lemma rf_decode_eval m eo sm tgt tm : rng_free (decode (Rng:=Rng) false m eo sm tgt tm).
Proof.
  unfold decode, decoder_forward, positional_encoding_forward. rf_chain.
  all: apply rf_dec_layers_eval.
Qed.

Lemma decode_output_erase training m1 m2 eo sm tgt tm g :
  erase m1 = erase m2 ->
  option_map (fun r => fst (fst r)) (decode (Rng:=Rng) training m1 eo sm tgt tm g)
  = option_map (fun r => fst (fst r)) (decode training m2 eo sm tgt tm g).
Proof.
  intros E. unfold erase in E. injection E as _ _ Dl Dn _ Ete _ Etp _.
  unfold decode, decoder_forward.
  rewrite (dec_layers_erase training (dec_layers (decoder m1))),
          (dec_layers_erase training (dec_layers (decoder m2))).
  rewrite Dl, Dn, Ete, Etp.
  unfold bind, lift, ret.
  destruct (input_embedding_forward (tgt_embed m2) tgt); [|reflexivity].
  destruct (positional_encoding_forward training (tgt_pos m2) t g) as [[x g1]|]; [|reflexivity].
  destruct (decoder_layers_forward _ _ _ _ _ _ _) as [[[y e] g2]|]; [|reflexivity].
  destruct (layer_norm_forward _ _); reflexivity.
Qed.

End DecodeEval.
End ExtraFacts.

(** * Further properties of the code *)
(** ** Forward graph, shapes and construction *)
Module Extras.
Import Views GraphFacts Shape Construction ShapeFacts BuildFacts ExtraFacts.

(** [Transformer.decode] on a model built with [h > 0]: for [B >= 1] target
    sequences of [T] tokens with [0 <= T <= tgt_seq_len], every token in
    [[0, tgt_vocab_size)], an encoder output of shape [(B, S, d_model)], a
    target mask that broadcasts to [(B, h, T, T)] and a source mask that
    broadcasts to [(B, h, T, S)] (or no masks), the output has shape
    [(B, T, d_model)]. *)
Theorem decode_output_shape training sv tv sl tl d N h p d_ff m eo sm tgt tm B T S :
  build_transformer sv tv sl tl d N h p d_ff = Some m ->
  0 < h -> 1 <= B -> 0 <= T <= tl -> 0 <= S -> tokens_ok tgt B T tv -> dims eo = [B; S; d] ->
  mask_ok_qk tm B h T T -> mask_ok_qk sm B h T S ->
  exists m', decode training m eo sm tgt tm tt = Some ((mk [B; T; d], m'), tt).
Proof.
  intros Hb Hh HB HT HS Htok Heo Htm Hsm.
  destruct (build_inv _ _ _ _ _ _ _ _ _ _ Hb) as (_ & Hte & _ & Htp & _ & Hdb & _ & _ & Hdn).
  apply input_embedding_new_wf in Hte as (Hie & Hemb & Hd0).
  apply positional_encoding_new_wf in Htp as (Hpe & _ & _ & _ & Hd1).
  apply decoder_blocks_new_wf in Hdb as (Hall & _ & Hcase).
  unfold decode.
  rewrite (bind_some _ _ tt (mk [B; T; d]) tt)
    by (unfold lift; rewrite (embedding_shape_ok _ _ B T tv d Hie Hemb Hd0 Htok); reflexivity).
  rewrite (bind_some _ _ tt (mk [B; T; d]) tt) by (apply (pe_forward_shape _ _ _ _ tl _ Hpe HT)).
  assert (Hd : exists dd', decoder_forward training (decoder m) (mk [B; T; d]) eo sm tm tt
                           = Some ((mk [B; T; d], dd'), tt)).
  { destruct Hcase as [Hnil | [Hh0 Hmod]].
    - unfold decoder_forward. rewrite Hnil. cbn [decoder_layers_forward].
      rewrite (bind_some _ _ tt (mk [B; T; d], []) tt) by reflexivity.
      rewrite (bind_some _ _ tt (mk [B; T; d]) tt).
      + eexists. reflexivity.
      + unfold lift. rewrite Hdn, (ln_shape _ (mk [B; T; d]) B T d ln_new_wf eq_refl).
        reflexivity.
    - remember (d / h) as dk eqn:Edk.
      assert (Hdd : d = h * dk) by (subst dk; apply Z.div_exact; auto).
      assert (1 <= dk) by nia. clear Edk Hie Hb Hemb Hpe Htok. subst d.
      apply (decoder_forward_shape training _ eo sm tm B T S h dk d_ff); auto; try lia.
      rewrite Hdn. apply ln_new_wf. }
  destruct Hd as [dd' Hd]. rewrite (bind_some _ _ tt (mk [B; T; d], dd') tt Hd).
  eexists. reflexivity.
Qed.

Lemma decode_output_shape_witness :
  match build_transformer 10 12 4 5 8 1 2 (1 # 10) 16 with
  | Some m => exists m', decode true m (mk [2; 3; 8]) None (mkSh [2; 5] [1; 2; 3; 4; 5; 6; 7; 8; 9; 11])
                                (Some (mk [1; 1; 5; 5])) tt
                         = Some ((mk [2; 5; 8], m'), tt)
  | None => False
  end.
Proof.
  destruct (build_transformer 10 12 4 5 8 1 2 (1 # 10) 16) as [m|] eqn:Eb;
    [|vm_compute in Eb; discriminate].
  apply (decode_output_shape true 10 12 4 5 8 1 2 (1 # 10) 16 m _ None _ _ 2 5 3 Eb);
    [lia | lia | lia | lia | split; reflexivity | reflexivity | reflexivity | exact I].
Defined.


(** After [Transformer.encode] on a valid input of [B >= 1] sequences of [S]
    tokens (the conditions of the output shape), each of the [N] encoder
    layers holds in [self_attention_block.attention_scores] a tensor of
    shape [(B, h, S, S)]. *)
Theorem encode_attention_scores_shape training sv tv sl tl d N h p d_ff m src mask B S :
  build_transformer sv tv sl tl d N h p d_ff = Some m ->
  0 < h -> 1 <= B -> 0 <= S <= sl -> tokens_ok src B S sv -> mask_ok mask B h S ->
  exists m', encode training m src mask tt = Some ((mk [B; S; d], m'), tt) /\
             encoder_scores m' = repeat (Some (mk [B; h; S; S])) (Z.to_nat N).
Proof.
  intros Hb Hh HB HS Htok Hmask.
  destruct (build_inv _ _ _ _ _ _ _ _ _ _ Hb) as (Hse & _ & Hsp & _ & Heb & _ & _ & Hen & _).
  pose proof (encoder_blocks_new_length _ _ _ _ _ _ Heb) as Hlen.
  apply input_embedding_new_wf in Hse as (Hie & Hemb & Hd0).
  apply positional_encoding_new_wf in Hsp as (Hpe & _ & _ & _ & Hd1).
  apply encoder_blocks_new_wf in Heb as (Hall & Hcase).
  unfold encode.
  rewrite (bind_some _ _ tt (mk [B; S; d]) tt)
    by (unfold lift; rewrite (embedding_shape_ok _ _ B S sv d Hie Hemb Hd0 Htok); reflexivity).
  rewrite (bind_some _ _ tt (mk [B; S; d]) tt) by (apply (pe_forward_shape _ _ _ _ sl _ Hpe HS)).
  assert (He : exists e', encoder_forward training (encoder m) (mk [B; S; d]) mask tt
                          = Some ((mk [B; S; d], e'), tt) /\
                          map (fun b => attention_scores (eb_self_attention_block b)) (enc_layers e')
                          = repeat (Some (mk [B; h; S; S])) (Z.to_nat N)).
  { destruct Hcase as [Hnil | [Hh0 Hmod]].
    - unfold encoder_forward. rewrite Hnil in Hlen |- *. cbn [encoder_layers_forward].
      rewrite (bind_some _ _ tt (mk [B; S; d], []) tt) by reflexivity.
      rewrite (bind_some _ _ tt (mk [B; S; d]) tt).
      + eexists. split; [reflexivity|]. rewrite <- Hlen. reflexivity.
      + unfold lift. rewrite Hen, (ln_shape _ (mk [B; S; d]) B S d ln_new_wf eq_refl).
        reflexivity.
    - remember (d / h) as dk eqn:Edk.
      assert (Hdd : d = h * dk) by (subst dk; apply Z.div_exact; auto).
      assert (1 <= dk) by nia. clear Edk Hie Hb Hemb Hpe Htok. subst d.
      destruct (enc_layers_scores training (enc_layers (encoder m)) mask B S h dk d_ff)
        as (ls' & Els & Hl & Hsc); auto; try lia.
      unfold encoder_forward. rewrite (bind_some _ _ tt (mk [B; S; h * dk], ls') tt Els).
      rewrite (bind_some _ _ tt (mk [B; S; h * dk]) tt)
        by (unfold lift; rewrite Hen, (ln_shape _ (mk [B; S; h * dk]) B S (h * dk) ln_new_wf eq_refl);
            reflexivity).
      eexists. split; [reflexivity|]. cbn [enc_layers].
      rewrite <- Hlen, <- Hl. apply map_Forall_repeat. exact Hsc. }
  destruct He as (e' & He & Hs). rewrite (bind_some _ _ tt (mk [B; S; d], e') tt He).
  eexists. split; [reflexivity | exact Hs].
Qed.

Lemma encode_attention_scores_shape_witness :
  match build_transformer 10 10 4 4 8 2 2 (1 # 10) 16 with
  | Some m => exists m', encode false m (mkSh [1; 3] [1; 2; 3]) (Some (mk [1; 1; 1; 3])) tt
                         = Some ((mk [1; 3; 8], m'), tt) /\
                         encoder_scores m' = [Some (mk [1; 2; 3; 3]); Some (mk [1; 2; 3; 3])]
  | None => False
  end.
Proof.
  destruct (build_transformer 10 10 4 4 8 2 2 (1 # 10) 16) as [m|] eqn:Eb;
    [|vm_compute in Eb; discriminate].
  apply (encode_attention_scores_shape false 10 10 4 4 8 2 2 (1 # 10) 16 m _ _ 1 3 Eb);
    [lia | lia | lia | split; reflexivity | reflexivity].
Defined.

(** [Transformer.project] maps a tensor of shape [(B, S, d_model)] to one of
    shape [(B, S, tgt_vocab_size)]. *)
Theorem project_output_shape sv tv sl tl d N h p d_ff m x B S :
  build_transformer sv tv sl tl d N h p d_ff = Some m -> dims x = [B; S; d] ->
  project m x = Some (mk [B; S; tv]).
Proof.
  intros Hb Hx. destruct (build_inv _ _ _ _ _ _ _ _ _ _ Hb) as (_ & _ & _ & _ & _ & _ & Hp & _).
  apply linear_new_wf in Hp.
  unfold project, projection_forward. rewrite (linear_forward_shape _ _ _ _ _ _ Hp Hx).
  reflexivity.
Qed.

Lemma project_output_shape_witness :
  match build_transformer 10 12 4 4 8 1 2 (1 # 10) 16 with
  | Some m => project m (mk [2; 3; 8]) = Some (mk [2; 3; 12])
  | None => False
  end.
Proof.
  destruct (build_transformer 10 12 4 4 8 1 2 (1 # 10) 16) as [m|] eqn:Eb;
    [|vm_compute in Eb; discriminate].
  exact (project_output_shape 10 12 4 4 8 1 2 (1 # 10) 16 m (mk [2; 3; 8]) 2 3 Eb eq_refl).
Defined.

(** [nn.Embedding] raises on a token index outside [[0, vocab_size)]: then
    [encode] fails on a negative source token or one [>= src_vocab_size], and
    [decode] on such a target token (against [tgt_vocab_size]). *)
Theorem embedding_out_of_range training sv tv sl tl d N h p d_ff m src mask eo sm tgt tm :
  build_transformer sv tv sl tl d N h p d_ff = Some m ->
  (existsb (fun t => (t <? 0) || (sv <=? t)) (ivals src) = true ->
     encode training m src mask tt = None) /\
  (existsb (fun t => (t <? 0) || (tv <=? t)) (ivals tgt) = true ->
     decode training m eo sm tgt tm tt = None).
Proof.
  intros Hb. destruct (build_inv _ _ _ _ _ _ _ _ _ _ Hb) as (Hse & Hte & _).
  split; intros Hx.
  - unfold encode, bind, lift. rewrite (embedding_rejects _ _ _ _ Hse Hx). reflexivity.
  - unfold decode, bind, lift. rewrite (embedding_rejects _ _ _ _ Hte Hx). reflexivity.
Qed.

Lemma embedding_out_of_range_witness :
  match build_transformer 10 12 4 4 8 1 2 (1 # 10) 16 with
  | Some m => encode false m (mkSh [1; 3] [1; 10; 2]) None tt = None /\
              decode false m (mk [1; 3; 8]) None (mkSh [1; 2] [-1; 3]) None tt = None
  | None => False
  end.
Proof.
  destruct (build_transformer 10 12 4 4 8 1 2 (1 # 10) 16) as [m|] eqn:Eb;
    [|vm_compute in Eb; discriminate].
  destruct (embedding_out_of_range false 10 12 4 4 8 1 2 (1 # 10) 16 m (mkSh [1; 3] [1; 10; 2])
              None (mk [1; 3; 8]) None (mkSh [1; 2] [-1; 3]) None Eb) as [He Hd].
  split; [apply He | apply Hd]; reflexivity.
Defined.


(** The number of scalars in [transformer.parameters()] of a built model:
    [N] encoder layers of [4 (d^2 + d) + 2 d d_ff + d_ff + d + 4], [N]
    decoder layers of [8 (d^2 + d) + 2 d d_ff + d_ff + d + 6], the two final
    norms, the two embedding tables and the projection ([N <= 0] builds no
    layer; the [pe] buffers are not parameters). *)
Theorem parameter_count sv tv sl tl d N h p d_ff m :
  build_transformer sv tv sl tl d N h p d_ff = Some m ->
  numel_sum (transformer_params m)
  = Z.max 0 N * (12 * d * d + 4 * d * d_ff + 14 * d + 2 * d_ff + 10)
    + 4 + sv * d + 2 * tv * d + tv.
Proof.
  intros Hb.
  destruct (build_inv _ _ _ _ _ _ _ _ _ _ Hb)
    as (Hse & Hte & _ & _ & Heb & Hdb & Hp & Hen & Hdn).
  pose proof (encoder_blocks_new_length _ _ _ _ _ _ Heb) as Hle.
  apply encoder_blocks_new_wf in Heb as (Hae & _).
  apply decoder_blocks_new_wf in Hdb as (Had & Hld & _).
  apply input_embedding_new_wf in Hse as (_ & Hse & _).
  apply input_embedding_new_wf in Hte as (_ & Hte & _).
  apply linear_new_wf in Hp as [Hpw Hpb].
  unfold transformer_params. rewrite !numel_sum_app.
  rewrite (numel_sum_flat_map _ _ (4 * (d * d + d) + (d_ff * d + d_ff) + (d * d_ff + d) + 4))
    by (eapply Forall_impl; [|exact Hae]; intros b Hw; exact (eb_numel _ _ _ _ b Hw)).
  rewrite (numel_sum_flat_map _ _ (8 * (d * d + d) + (d_ff * d + d_ff) + (d * d_ff + d) + 6))
    by (eapply Forall_impl; [|exact Had]; intros b Hw; exact (db_numel _ _ _ _ b Hw)).
  unfold linear_params. rewrite Hle, Hld, Hen, Hdn, Hse, Hte, Hpw, Hpb.
  replace (Z.of_nat (Z.to_nat N)) with (Z.max 0 N) by lia.
  unfold numel_sum, prod. cbn [ln_params layer_norm_new alpha ln_bias mk dims map fold_right].
  ring.
Qed.

Lemma parameter_count_witness :
  match build_transformer 10 12 4 4 8 2 2 (1 # 10) 16 with
  | Some m => numel_sum (transformer_params m) = 3156
  | None => False
  end.
Proof.
  destruct (build_transformer 10 12 4 4 8 2 2 (1 # 10) 16) as [m|] eqn:Eb;
    [|vm_compute in Eb; discriminate].
  rewrite (parameter_count 10 12 4 4 8 2 2 (1 # 10) 16 m Eb). reflexivity.
Defined.

(** [build_transformer] fails for every [d_model <= 0] ([nn.Embedding] or
    [torch.zeros] refuse a negative size, [-math.log(10000.0) / d_model]
    divides by zero) and for every odd [d_model >= 3] (the [floor(d_model/2)]
    odd columns of [pe] cannot take the [ceil(d_model/2)] cosines), whatever
    the other arguments. *)
Theorem build_rejects_d_model sv tv sl tl d N h p d_ff :
  (d <= 0 \/ (Z.odd d = true /\ 3 <= d)) -> build_transformer sv tv sl tl d N h p d_ff = None.
Proof.
  intros Hd. apply build_pe_fails. unfold positional_encoding_new.
  destruct (dropout_new p); [|reflexivity]. cbn [obind].
  destruct Hd as [Hd | [Ho H3]].
  - destruct (Z.ltb_spec d 0); [rewrite orb_true_r; reflexivity|].
    rewrite orb_false_r. destruct (sl <? 0); [reflexivity|].
    replace (d =? 0) with true by lia. reflexivity.
  - rewrite (pe_columns_odd d Ho H3). replace (d <? 0) with false by lia.
    replace (d =? 0) with false by lia. rewrite orb_false_r.
    destruct (sl <? 0); reflexivity.
Qed.

Lemma build_rejects_d_model_witness :
  build_transformer 10 10 4 4 5 1 5 (1 # 10) 16 = None /\
  build_transformer 10 10 4 4 0 1 1 (1 # 10) 16 = None.
Proof.
  split; apply build_rejects_d_model; [right; split; [reflexivity | lia] | left; lia].
Defined.

(** [build_transformer] fails whenever the dropout rate is outside [0, 1]:
    [nn.Dropout] raises [ValueError] in [PositionalEncoding.__init__]. *)
Theorem build_rejects_dropout sv tv sl tl d N h p d_ff :
  ~ (0 <= p <= 1)%Q -> build_transformer sv tv sl tl d N h p d_ff = None.
Proof.
  intros Hp. apply build_pe_fails. unfold positional_encoding_new.
  rewrite (dropout_new_invalid p Hp). reflexivity.
Qed.

Lemma build_rejects_dropout_witness :
  build_transformer 10 10 4 4 8 1 2 (3 # 2) 16 = None.
Proof.
  apply build_rejects_dropout. intros [_ C]. unfold Qle in C. simpl in C. lia.
Defined.

(** [build_transformer] fails when a vocabulary size or a sequence length is
    negative, or, with at least one layer, when [d_ff] is negative. *)
Theorem build_rejects_negative_size sv tv sl tl d N h p d_ff :
  (sv < 0 \/ tv < 0 \/ sl < 0 \/ tl < 0 \/ (1 <= N /\ d_ff < 0)) ->
  build_transformer sv tv sl tl d N h p d_ff = None.
Proof.
  intros [Hs | [Ht | [Hsl | [Htl | [HN Hff]]]]].
  - unfold build_transformer, input_embedding_new.
    replace (sv <? 0) with true by lia. reflexivity.
  - unfold build_transformer. destruct (input_embedding_new d sv); [|reflexivity]. cbn [obind].
    unfold input_embedding_new. replace (tv <? 0) with true by lia. reflexivity.
  - apply build_pe_fails. unfold positional_encoding_new.
    destruct (dropout_new p); [|reflexivity]. cbn [obind].
    replace (sl <? 0) with true by lia. reflexivity.
  - apply build_tgt_pe_fails. unfold positional_encoding_new.
    destruct (dropout_new p); [|reflexivity]. cbn [obind].
    replace (tl <? 0) with true by lia. reflexivity.
  - unfold build_transformer.
    destruct (input_embedding_new d sv); [|reflexivity]. cbn [obind].
    destruct (input_embedding_new d tv); [|reflexivity]. cbn [obind].
    destruct (positional_encoding_new d sl p); [|reflexivity]. cbn [obind].
    destruct (positional_encoding_new d tl p); [|reflexivity]. cbn [obind].
    destruct (Z.to_nat N) as [|n] eqn:EN; [lia|]. cbn [encoder_blocks_new].
    destruct (mha_new d h p); [|reflexivity]. cbn [obind].
    unfold feed_forward_new, linear_new. replace (d_ff <? 0) with true by lia.
    rewrite orb_true_r. reflexivity.
Qed.

Lemma build_rejects_negative_size_witness :
  build_transformer 10 10 4 4 8 1 2 (1 # 10) (-1) = None.
Proof. apply build_rejects_negative_size. right; right; right; right. lia. Defined.


Section Generic.
Context {T F Rng : Type} `{Tensor T F Rng}.

(** In evaluation mode [Transformer.decode] neither reads nor advances the
    random generator, and its output depends on the model only through what
    is left once the [attention_scores] attributes are erased: two models
    that differ only there give the same output, from any generator states. *)
Theorem decode_eval_deterministic m1 m2 eo sm tgt tm (g1 g2 : Rng) :
  erase m1 = erase m2 ->
  rng_free (decode (Rng:=Rng) false m1 eo sm tgt tm) /\
  option_map (fun r => fst (fst r)) (decode false m1 eo sm tgt tm g1)
  = option_map (fun r => fst (fst r)) (decode false m2 eo sm tgt tm g2).
Proof.
  intros E. split; [apply rf_decode_eval|].
  rewrite (decode_output_erase false m1 m2 eo sm tgt tm g1 E).
  pose proof (rf_decode_eval m2 eo sm tgt tm g1 g2) as Hrf.
  destruct (decode false m2 eo sm tgt tm g1) as [[r1 g1']|],
           (decode false m2 eo sm tgt tm g2) as [[r2 g2']|]; try contradiction;
    [destruct Hrf as (-> & _ & _)|]; reflexivity.
Qed.

End Generic.

Lemma decode_eval_deterministic_witness :
  match build_transformer 10 12 4 4 8 1 2 (1 # 10) 16 with
  | Some m =>
      match encode false m (mkSh [1; 3] [1; 2; 3]) None tt with
      | Some ((_, m'), _) =>
          option_map (fun r => fst (fst r))
            (decode false m' (mk [1; 3; 8]) None (mkSh [1; 2] [1; 3]) None tt)
          = Some (mk [1; 2; 8])
      | None => False
      end
  | None => False
  end.
Proof.
  destruct (build_transformer 10 12 4 4 8 1 2 (1 # 10) 16) as [m|] eqn:Eb;
    [|vm_compute in Eb; discriminate].
  destruct (encode false m (mkSh [1; 3] [1; 2; 3]) None tt) as [[[y m'] u]|] eqn:Ee;
    [|vm_compute in Eb; injection Eb as <-; vm_compute in Ee; discriminate].
  assert (Hm : erase m' = erase m).
  { vm_compute in Eb. injection Eb as <-. vm_compute in Ee. injection Ee as _ <- _.
    reflexivity. }
  destruct (decode_eval_deterministic (T:=Sh) (F:=Q) (Rng:=unit) m' m (mk [1; 3; 8]) None
              (mkSh [1; 2] [1; 3]) None tt tt Hm) as [_ E].
  rewrite E. vm_compute in Eb. injection Eb as <-. reflexivity.
Defined.

End Extras.

(** * Further properties of the real-valued computations *)
Module NumericExtraFacts.
Import Numeric NumericFacts.
Local Open Scope R_scope.

(** ** The maximum of a vector *)

Lemma Rmax_shift a b c : Rmax (a + c) (b + c) = Rmax a b + c.
Proof. unfold Rmax. destruct (Rle_dec a b), (Rle_dec (a + c) (b + c)); lra. Qed.

Lemma fold_max_shift a l c :
  fold_right Rmax (a + c) (map (fun vi => vi + c) l) = fold_right Rmax a l + c.
Proof. induction l as [|x l IH]; [reflexivity|]. simpl. rewrite IH. apply Rmax_shift. Qed.

Lemma fold_max_ge_init a l : a <= fold_right Rmax a l.
Proof.
  induction l as [|x l IH]; simpl; [lra|].
  pose proof (Rmax_r x (fold_right Rmax a l)). lra.
Qed.

Lemma fold_max_ge a l x : In x l -> x <= fold_right Rmax a l.
Proof.
  induction l as [|y l IH]; [contradiction|]. simpl. intros [<- | Hx].
  - apply Rmax_l.
  - pose proof (Rmax_r y (fold_right Rmax a l)). specialize (IH Hx). lra.
Qed.

Lemma fold_max_in a l : fold_right Rmax a l = a \/ In (fold_right Rmax a l) l.
Proof.
  induction l as [|y l IH]; [left; reflexivity|]. simpl.
  destruct (Rle_dec y (fold_right Rmax a l)) as [Hle | Hgt].
  - rewrite (Rmax_right _ _ Hle). destruct IH as [E | Hin]; [left; exact E | right; right; exact Hin].
  - apply Rnot_le_lt in Hgt. rewrite (Rmax_left y (fold_right Rmax a l)) by lra.
    right. left. reflexivity.
Qed.

Lemma max_vec_ge v x : In x v -> x <= max_vec v.
Proof. apply fold_max_ge. Qed.

Lemma max_vec_in v : v <> [] -> In (max_vec v) v.
Proof.
  destruct v as [|a l]; [contradiction|]. intros _. unfold max_vec. cbn [hd].
  destruct (fold_max_in a (a :: l)) as [E | E]; [rewrite E; left|]; auto.
Qed.

Lemma max_vec_shift v c : max_vec (map (fun vi => vi + c) v) = max_vec v + c \/ v = [].
Proof.
  destruct v as [|a l]; [right; reflexivity|]. left. unfold max_vec. cbn [hd].
  exact (fold_max_shift a (a :: l) c).
Qed.

Lemma fold_max_repeat a k : fold_right Rmax a (repeat a k) = a.
Proof. induction k as [|k IH]; simpl; [reflexivity|]. rewrite IH. apply Rmax_left. lra. Qed.

Lemma max_vec_repeat a n : (1 <= n)%nat -> max_vec (repeat a n) = a.
Proof.
  intros Hn. destruct n as [|n]; [lia|]. unfold max_vec. cbn [hd repeat].
  exact (fold_max_repeat a (S n)).
Qed.

(** ** Sums of nonnegative terms *)

Lemma sumR_nonneg (f : R -> R) l : (forall z, 0 <= f z) -> 0 <= sumR (map f l).
Proof.
  intros Hf. induction l as [|x l IH]; simpl; [lra|]. specialize (Hf x). lra.
Qed.

Lemma sumR_ge_term (f : R -> R) l y : (forall z, 0 <= f z) -> In y l -> f y <= sumR (map f l).
Proof.
  intros Hf. induction l as [|x l IH]; [contradiction|]. simpl. intros [<- | Hy].
  - pose proof (sumR_nonneg f l Hf). lra.
  - specialize (IH Hy). specialize (Hf x). lra.
Qed.

Lemma sumR_repeat a n : sumR (repeat a n) = INR n * a.
Proof. induction n as [|n IH]; [simpl; ring|]. rewrite S_INR. simpl. rewrite IH. ring. Qed.

(** ** Softmax and log-softmax *)

Lemma softmax_sum_one v : v <> [] -> sumR (softmax_vec v) = 1.
Proof.
  intros Hv. unfold softmax_vec. set (m := max_vec v).
  set (S := sumR (map (fun vi => exp (vi - m)) v)).
  assert (HS : 0 < S) by (apply (sumR_exp_pos (fun vi => vi - m)); exact Hv).
  rewrite sumR_map_div. fold S. field. lra.
Qed.

Lemma softmax_nonneg v : Forall (fun w => 0 <= w) (softmax_vec v).
Proof.
  destruct v as [|a l]; [constructor|]. unfold softmax_vec. apply Forall_map.
  apply Forall_forall. intros vi _.
  assert (0 < sumR (map (fun vj => exp (vj - max_vec (a :: l))) (a :: l)))
    by (apply (sumR_exp_pos (fun vj => vj - max_vec (a :: l))); discriminate).
  pose proof (exp_pos (vi - max_vec (a :: l))). unfold Rdiv.
  apply Rmult_le_pos; [lra | left; apply Rinv_0_lt_compat; assumption].
Qed.

Lemma softmax_repeat a n : (1 <= n)%nat -> softmax_vec (repeat a n) = repeat (/ INR n) n.
Proof.
  intros Hn. unfold softmax_vec. cbv zeta. rewrite max_vec_repeat by exact Hn.
  assert (E : forall k, map (fun vi => exp (vi - a)) (repeat a k) = repeat 1 k).
  { induction k as [|k IH]; simpl; [reflexivity|]. rewrite IH, Rminus_diag, exp_0. reflexivity. }
  rewrite E, sumR_repeat, Rmult_1_r.
  assert (E2 : forall k, map (fun vi => exp (vi - a) / INR n) (repeat a k) = repeat (/ INR n) k).
  { induction k as [|k IH]; simpl; [reflexivity|]. rewrite IH, Rminus_diag, exp_0.
    f_equal. unfold Rdiv. ring. }
  exact (E2 n).
Qed.

Lemma log_softmax_shift v c : log_softmax_vec (map (fun vi => vi + c) v) = log_softmax_vec v.
Proof.
  destruct (max_vec_shift v c) as [Hm | ->]; [|reflexivity].
  unfold log_softmax_vec. rewrite Hm, !map_map.
  rewrite (map_ext (fun x => exp (x + c - (max_vec v + c))) (fun vi => exp (vi - max_vec v)))
    by (intros; f_equal; ring).
  apply map_ext. intros vi. ring.
Qed.

Lemma log_softmax_nonpos v : Forall (fun y => y <= 0) (log_softmax_vec v).
Proof.
  destruct v as [|a l] eqn:Ev; [constructor|]. rewrite <- Ev.
  assert (Hv : v <> []) by (rewrite Ev; discriminate). clear Ev.
  unfold log_softmax_vec. set (m := max_vec v).
  set (S := sumR (map (fun vi => exp (vi - m)) v)).
  assert (HS : 1 <= S).
  { unfold S. rewrite <- exp_0, <- (Rminus_diag m).
    apply (sumR_ge_term (fun vi => exp (vi - m))); [intros z; left; apply exp_pos|].
    apply max_vec_in, Hv. }
  assert (Hl : 0 <= ln S).
  { destruct (Req_dec_T S 1) as [-> | Hne]; [rewrite ln_1; lra|].
    rewrite <- ln_1. left. apply ln_increasing; lra. }
  apply Forall_map, Forall_forall. intros vi Hi.
  pose proof (max_vec_ge v vi Hi). fold m in H. lra.
Qed.

(** ** Layer normalization *)

Lemma sumR_shift x c : sumR (map (fun xi => xi + c) x) = sumR x + INR (length x) * c.
Proof.
  induction x as [|a x IH]; [simpl; ring|]. cbn [map length]. rewrite !sumR_cons, IH, S_INR.
  ring.
Qed.

Lemma mean_vec_shift x c : x <> [] -> mean_vec (map (fun xi => xi + c) x) = mean_vec x + c.
Proof.
  intros Hx. unfold mean_vec. rewrite sumR_shift, length_map.
  assert (0 < INR (length x)) by (destruct x; [contradiction|]; apply lt_0_INR; simpl; lia).
  field. lra.
Qed.

Lemma sq_dev_shift x c : x <> [] -> sq_dev (map (fun xi => xi + c) x) = sq_dev x.
Proof.
  intros Hx. unfold sq_dev. rewrite mean_vec_shift by exact Hx. rewrite map_map.
  f_equal. apply map_ext. intros xi. f_equal. ring.
Qed.

Lemma std_vec_shift x c : x <> [] -> std_vec (map (fun xi => xi + c) x) = std_vec x.
Proof. intros Hx. unfold std_vec. rewrite sq_dev_shift, length_map by exact Hx. reflexivity. Qed.

Lemma mean_vec_repeat a n : (1 <= n)%nat -> mean_vec (repeat a n) = a.
Proof.
  intros Hn. unfold mean_vec. rewrite sumR_repeat, repeat_length.
  assert (0 < INR n) by (apply lt_0_INR; lia). field. lra.
Qed.

(** ** Attention weights *)

Lemma masked_fill_row_length mr s : length (masked_fill_row mr s) = Nat.min (length s) (length mr).
Proof. unfold masked_fill_row. rewrite length_map, length_combine. reflexivity. Qed.

Lemma masked_fill_row_all s :
  masked_fill_row (repeat 0 (length s)) s = repeat (- 1000000000) (length s).
Proof.
  induction s as [|a s IH]; [reflexivity|]. unfold masked_fill_row in *. simpl.
  rewrite IH. destruct (Req_dec_T 0 0) as [_ | C]; [reflexivity | contradiction C; reflexivity].
Qed.

(** ** The table [pe] *)

Lemma length_assign_stride row start vals : length (assign_stride row start vals) = length row.
Proof. unfold assign_stride. rewrite length_map, length_seq. reflexivity. Qed.

Lemma assign_stride_Forall (P : R -> Prop) row start vals :
  P 0 -> Forall P row -> Forall P vals -> Forall P (assign_stride row start vals).
Proof.
  intros H0 Hr Hv. unfold assign_stride. apply Forall_map, Forall_forall. intros c _.
  assert (Hn : P (nth c row 0)).
  { destruct (nth_in_or_default c row 0) as [Hin | ->]; [|exact H0].
    exact (proj1 (Forall_forall P row) Hr _ Hin). }
  destruct (_ && _)%bool; [|exact Hn].
  destruct (nth_error vals _) as [v|] eqn:E; [|exact Hn].
  exact (proj1 (Forall_forall P vals) Hv _ (nth_error_In _ _ E)).
Qed.

Lemma pe_row_bounded d n k : Forall (fun v => -1 <= v <= 1) (pe_row d n k).
Proof.
  unfold pe_row. apply assign_stride_Forall; [lra| |].
  - apply assign_stride_Forall; [lra| |].
    + apply Forall_forall. intros v Hv. rewrite (repeat_entry 0 v _ Hv). lra.
    + unfold sin_row. apply Forall_map, Forall_forall. intros j _. apply SIN_bound.
  - unfold cos_row. apply Forall_map, Forall_forall. intros j _. apply COS_bound.
Qed.

Lemma pe_row_length d n k : length (pe_row d n k) = Z.to_nat d.
Proof. unfold pe_row. rewrite !length_assign_stride, repeat_length. reflexivity. Qed.

(** ** The projection *)

Lemma linear_vec_bias_shift W b x c :
  linear_vec W (map (fun bi => bi + c) b) x = map (fun yi => yi + c) (linear_vec W b x).
Proof.
  unfold linear_vec. revert b. induction W as [|w W IH]; intros [|bi b]; try reflexivity.
  cbn [combine map fst snd]. rewrite IH. f_equal. ring.
Qed.

Lemma sq_dev_repeat a n : (1 <= n)%nat -> sq_dev (repeat a n) = 0.
Proof.
  intros Hn. unfold sq_dev. rewrite mean_vec_repeat by exact Hn.
  clear Hn. induction n as [|n IH]; [reflexivity|]. cbn [repeat map]. rewrite sumR_cons, IH.
  rewrite Rminus_diag. ring.
Qed.

Lemma std_vec_repeat a n : (1 <= n)%nat -> std_vec (repeat a n) = 0.
Proof.
  intros Hn. unfold std_vec. rewrite sq_dev_repeat by exact Hn. unfold Rdiv.
  rewrite Rmult_0_l. apply sqrt_0.
Qed.

End NumericExtraFacts.


(** * Properties of the numeric layers *)
Module NumericExtras.
Import Numeric NumericFacts NumericExtraFacts.
Local Open Scope R_scope.

(** [ProjectionLayer.forward] returns log-probabilities: every entry of
    [log_softmax(proj(x))] is at most 0, whatever the weights, the bias and
    the input. *)
Theorem project_log_probs_nonpos W b x : Forall (fun y => y <= 0) (project_vec W b x).
Proof. unfold project_vec. apply log_softmax_nonpos. Qed.

(** [ProjectionLayer.forward] does not depend on a common offset of the bias
    of [proj]: adding the same constant to every bias entry leaves the
    output unchanged. *)
Theorem project_bias_shift W b x c :
  project_vec W (map (fun bi => bi + c) b) x = project_vec W b x.
Proof. unfold project_vec. rewrite linear_vec_bias_shift. apply log_softmax_shift. Qed.

(** [LayerNormalization.forward] is invariant under adding the same
    constant to every entry of the normalized vector. *)
Theorem layer_norm_shift alpha bias eps x c :
  layer_norm_vec alpha bias eps (map (fun xi => xi + c) x) = layer_norm_vec alpha bias eps x.
Proof.
  destruct x as [|x0 x'] eqn:Ex; [reflexivity|]. rewrite <- Ex.
  assert (Hx : x <> []) by (rewrite Ex; discriminate). clear Ex.
  unfold layer_norm_vec. rewrite mean_vec_shift, std_vec_shift by exact Hx. rewrite map_map.
  apply map_ext. intros xi. f_equal. f_equal. f_equal. ring.
Qed.

(** [LayerNormalization.forward] maps a constant vector of at least two
    entries to the constant vector [bias]: the deviations from the mean are
    all 0 and the standard deviation is 0, so only [eps] remains in the
    denominator. *)
Theorem layer_norm_constant alpha bias eps a n :
  (2 <= n)%nat -> 0 < eps ->
  layer_norm_vec alpha bias eps (repeat a n) = repeat bias n.
Proof.
  intros Hn Heps. unfold layer_norm_vec.
  rewrite mean_vec_repeat, std_vec_repeat by lia.
  clear Hn. induction n as [|n IH]; [reflexivity|]. cbn [repeat map]. rewrite IH.
  f_equal. rewrite Rminus_diag. field. lra.
Qed.

(** The buffer [pe] built by [PositionalEncoding.__init__] has shape
    [(1, seq_len, d_model)] and each of its entries, a sine or a cosine,
    lies in [-1, 1]. *)
Theorem pe_table_shape_bounded L d t :
  pe_table L d = Some t ->
  exists rows, t = [rows] /\ length rows = Z.to_nat L /\
    Forall (fun r => length r = Z.to_nat d /\ Forall (fun v => -1 <= v <= 1) r) rows.
Proof.
  unfold pe_table. intros H.
  destruct ((L <? 0)%Z || (d <? 0)%Z); [discriminate|].
  destruct (d =? 0)%Z; [discriminate|].
  destruct (bcast_ok _ _ && bcast_ok _ _); [|discriminate].
  injection H as <-. eexists; split; [reflexivity|]. split.
  - rewrite length_map, length_seq. reflexivity.
  - apply Forall_map, Forall_forall. intros k _. split.
    + apply pe_row_length.
    + apply pe_row_bounded.
Qed.

(** The attention weights of one query row in
    [MultiHeadAttentionBlock.attention] form a probability distribution
    over the keys: for a nonempty query ([d_k >= 1], so that
    [math.sqrt(d_k)] is not 0) and at least one key, each weight is
    nonnegative and they sum to 1, with or without a mask row of the keys'
    length. *)
Theorem attention_weights_stochastic q K mrow :
  q <> [] -> K <> [] -> (forall mr, mrow = Some mr -> length mr = length K) ->
  Forall (fun w => 0 <= w) (attention_row q K mrow) /\ sumR (attention_row q K mrow) = 1.
Proof.
  intros _ HK Hm. unfold attention_row. split; [apply softmax_nonneg|].
  apply softmax_sum_one. destruct mrow as [mr|].
  - intros E. apply (f_equal (@length R)) in E. rewrite masked_fill_row_length, length_map in E.
    rewrite (Hm mr eq_refl), Nat.min_id in E. destruct K; [contradiction|]. discriminate.
  - destruct K; [contradiction|]. discriminate.
Qed.

(** When the mask row is 0 at every key, [masked_fill_] sets every score to
    [-1e9] and the attention weights of the row are uniform, [1/n] for [n]
    keys, whatever the query and the keys. *)
Theorem attention_fully_masked_uniform q K :
  K <> [] ->
  attention_row q K (Some (repeat 0 (length K))) = repeat (/ INR (length K)) (length K).
Proof.
  intros HK. unfold attention_row.
  set (sc := map (fun k => dot q k / sqrt (INR (length q))) K).
  assert (Hl : length sc = length K) by apply length_map.
  rewrite <- Hl at 1. rewrite masked_fill_row_all, Hl. apply softmax_repeat.
  destruct K; [contradiction|]. simpl. lia.
Qed.

(** Witnesses *)

Lemma layer_norm_constant_witness :
  (2 <= 3)%nat /\ 0 < 1 / 1000000 /\
  layer_norm_vec 2 5 (1 / 1000000) (repeat 7 3) = repeat 5 3.
Proof.
  split; [lia|]. split; [lra|].
  apply (layer_norm_constant 2 5 (1 / 1000000) 7 3); [lia | lra].
Defined.

Lemma pe_table_shape_bounded_witness :
  exists t, pe_table 2 4 = Some t /\
  exists rows, t = [rows] /\ length rows = Z.to_nat 2 /\
    Forall (fun r => length r = Z.to_nat 4 /\ Forall (fun v => -1 <= v <= 1) r) rows.
Proof.
  eexists. split; [reflexivity|]. apply (pe_table_shape_bounded 2 4). reflexivity.
Defined.

Lemma attention_weights_stochastic_witness :
  [1; 2] <> [] /\ [[1; 0]; [0; 1]] <> [] /\
  (forall mr, Some [1; 0] = Some mr -> length mr = length [[1; 0]; [0; 1]]) /\
  Forall (fun w => 0 <= w) (attention_row [1; 2] [[1; 0]; [0; 1]] (Some [1; 0])) /\
  sumR (attention_row [1; 2] [[1; 0]; [0; 1]] (Some [1; 0])) = 1.
Proof.
  assert (H1 : [[1; 0]; [0; 1]] <> []) by discriminate.
  assert (H2 : forall mr, Some [1; 0] = Some mr -> length mr = length [[1; 0]; [0; 1]])
    by (intros mr E; injection E as <-; reflexivity).
  assert (H0 : [1; 2] <> []) by discriminate.
  split; [exact H0|]. split; [exact H1|]. split; [exact H2|].
  exact (attention_weights_stochastic [1; 2] [[1; 0]; [0; 1]] (Some [1; 0]) H0 H1 H2).
Defined.

Lemma attention_fully_masked_uniform_witness :
  [[1; 0]; [0; 1]] <> [] /\
  attention_row [1; 2] [[1; 0]; [0; 1]] (Some [0; 0]) = [/ 2; / 2].
Proof.
  assert (H1 : [[1; 0]; [0; 1]] <> []) by discriminate.
  split; [exact H1|].
  pose proof (attention_fully_masked_uniform [1; 2] [[1; 0]; [0; 1]] H1) as E.
  cbn [length repeat] in E. rewrite E. replace (INR 2) with 2 by (simpl; ring). reflexivity.
Defined.

End NumericExtras.
